(** * A shallow embedding of the react-mng2 backend (Go, Gin, GORM over SQLite)

    The file follows the layout of the backend: [models] (the three GORM
    records and the tables behind them), [utils] (the response envelope),
    [services] (user, role and permission services) and [api] (the Gin
    handlers).  Go's [uint] is [nat], [int] is [Z] (with the 64-bit
    wrap-around written out where the code does arithmetic on it),
    [time.Time] is a [Z] instant, [string] is [string], a [map] is a
    [gmap], a pointer into the node table of the permission tree is an
    index into that table. *)

From Stdlib Require Import ZArith.
From stdpp Require Import base option gmap strings list sorting.

Open Scope string_scope.
Open Scope nat_scope.
Open Scope list_scope.

(** ** models/models.go *)

(** [Role] and [Permission] refer to each other through the many2many
    association [role_permissions]. *)
Inductive Role : Type := Build_Role {
  Role_ID : nat;
  Role_Name : string;
  Role_Code : string;
  Role_Description : string;
  Role_CreatedAt : Z;
  Role_UpdatedAt : Z;
  Role_Permissions : list Permission }
with Permission : Type := Build_Permission {
  Permission_ID : nat;
  Permission_Name : string;
  Permission_Code : string;
  Permission_ParentCode : string;
  Permission_Path : string;
  Permission_Type : Z;
  Permission_Sort : Z;
  Permission_Description : string;
  Permission_CreatedAt : Z;
  Permission_UpdatedAt : Z;
  Permission_Roles : list Role }.

Record User : Type := Build_User {
  User_ID : nat;
  User_Username : string;
  User_Password : string;
  User_Realname : string;
  User_Email : string;
  User_Status : Z;
  User_CreatedAt : Z;
  User_UpdatedAt : Z;
  User_Role : option Role;
  User_RoleID : option nat }.

(** The database behind [models.DB]: one list of rows per table, in rowid
    order, and the join table of the many2many association as pairs
    (role_id, permission_id).  The association fields of a stored row
    ([Role_Permissions], [Permission_Roles], [User_Role]) are not columns. *)
Record DB : Type := Build_DB {
  users : list User;
  roles : list Role;
  permissions : list Permission;
  role_permissions : list (nat * nat) }.

(** ** services/permission_service.go: the permission tree *)

(** A [*PermissionTree] is an address in the node table; the nodes are
    allocated in the order of the first loop of [GetPermissionTrees]. *)
Abbreviation addr := nat (only parsing).

Record PermissionTree : Type := Build_PermissionTree {
  ID : nat;
  Name : string;
  Code : string;
  ParentCode : string;
  Path : string;
  Type_ : Z;
  Sort : Z;
  Description : string;
  Children : list addr;
  HasChildren : bool }.

Definition set_Children (cs : list addr) (n : PermissionTree) : PermissionTree :=
  Build_PermissionTree (ID n) (Name n) (Code n) (ParentCode n) (Path n)
    (Type_ n) (Sort n) (Description n) cs (HasChildren n).

Definition set_HasChildren (b : bool) (n : PermissionTree) : PermissionTree :=
  Build_PermissionTree (ID n) (Name n) (Code n) (ParentCode n) (Path n)
    (Type_ n) (Sort n) (Description n) (Children n) b.

(** [Order("type ASC, sort ASC, id ASC")]. *)
Definition db_order (p q : Permission) : Prop :=
  (Permission_Type p < Permission_Type q)%Z ∨
  (Permission_Type p = Permission_Type q ∧
   ((Permission_Sort p < Permission_Sort q)%Z ∨
    (Permission_Sort p = Permission_Sort q ∧ (Permission_ID p ≤ Permission_ID q)%nat))).

#[global] Instance db_order_dec p q : Decision (db_order p q).
Proof. unfold db_order. apply _. Defined.

(** [GetAllPermissions]: every row of the permissions table, in the order
    of the ORDER BY clause. *)
Definition GetAllPermissions (db : DB) : list Permission :=
  merge_sort db_order (permissions db).

(** The node the first loop allocates for [perm]. *)
Definition newNode (perm : Permission) : PermissionTree :=
  {| ID := Permission_ID perm;
     Name := Permission_Name perm;
     Code := Permission_Code perm;
     ParentCode := Permission_ParentCode perm;
     Path := Permission_Path perm;
     Type_ := Permission_Type perm;
     Sort := Permission_Sort perm;
     Description := Permission_Description perm;
     Children := [];
     HasChildren := false |}.

(** First loop: [treeMap[perm.Code] = &PermissionTree{...}]. *)
Fixpoint createNodes (perms : list Permission)
    (heap : list PermissionTree) (treeMap : gmap string addr)
    : list PermissionTree * gmap string addr :=
  match perms with
  | [] => (heap, treeMap)
  | perm :: rest =>
      createNodes rest (heap ++ [newNode perm])
        (<[Permission_Code perm := length heap]> treeMap)
  end.

(** [parent.Children = append(parent.Children, node); parent.HasChildren = true]. *)
Definition appendChild (node : addr) (parent : PermissionTree) : PermissionTree :=
  set_HasChildren true (set_Children (Children parent ++ [node]) parent).

(** Second loop.  A permission with an empty [ParentCode] is appended to
    [roots]; one whose [ParentCode] is a key of [treeMap] is appended to
    that node's [Children]; for any other permission the loop body does
    nothing.  Every code is a key of [treeMap] after the first loop, so
    the first lookup never misses. *)
Fixpoint linkNodes (perms : list Permission) (treeMap : gmap string addr)
    (heap : list PermissionTree) (roots : list addr)
    : list PermissionTree * list addr :=
  match perms with
  | [] => (heap, roots)
  | perm :: rest =>
      match treeMap !! Permission_Code perm with
      | None => linkNodes rest treeMap heap roots
      | Some node =>
          if decide (Permission_ParentCode perm = "") then
            linkNodes rest treeMap heap (roots ++ [node])
          else
            match treeMap !! Permission_ParentCode perm with
            | Some parent =>
                linkNodes rest treeMap (alter (appendChild node) parent heap) roots
            | None => linkNodes rest treeMap heap roots
            end
      end
  end.

(** The comparison both [sort.Slice] calls use, on the nodes two pointers
    refer to: by [Type], then by [Sort]. *)
Definition less (heap : list PermissionTree) (a b : addr) : bool :=
  match heap !! a, heap !! b with
  | Some x, Some y =>
      if (Type_ x =? Type_ y)%Z then (Sort x <? Sort y)%Z
      else (Type_ x <? Type_ y)%Z
  | _, _ => false
  end.

(** The body of the closure [sortChildren], with the recursive call as a
    parameter: for each node of the slice that has children, sort them in
    place and recurse into them. *)
Fixpoint sortLoop
    (sort_slice : (addr → addr → bool) → list addr → list addr)
    (rec : list PermissionTree → list addr → option (list PermissionTree))
    (nodes : list addr) (heap : list PermissionTree)
    : option (list PermissionTree) :=
  match nodes with
  | [] => Some heap
  | n :: rest =>
      match heap !! n with
      | None => None
      | Some node =>
          match Children node with
          | [] => sortLoop sort_slice rec rest heap
          | _ :: _ =>
              let sorted := sort_slice (less heap) (Children node) in
              let heap1 := <[n := set_Children sorted node]> heap in
              match rec heap1 sorted with
              | None => None
              | Some heap2 => sortLoop sort_slice rec rest heap2
              end
          end
      end
  end.

(** [sortChildren] recurses along the pointers of the node table; [fuel]
    bounds the depth of the recursion, and [None] is a recursion that does
    not come back within that depth. *)
Fixpoint sortChildren
    (sort_slice : (addr → addr → bool) → list addr → list addr)
    (fuel : nat) (heap : list PermissionTree) (nodes : list addr)
    : option (list PermissionTree) :=
  match fuel with
  | O => None
  | S fuel' => sortLoop sort_slice (sortChildren sort_slice fuel') nodes heap
  end.

(** [GetPermissionTrees] returns the root slice; the node table the
    returned pointers refer to is returned with it. *)
Definition GetPermissionTrees
    (sort_slice : (addr → addr → bool) → list addr → list addr)
    (fuel : nat) (db : DB) : option (list addr * list PermissionTree) :=
  let perms := GetAllPermissions db in
  let '(heap0, treeMap) := createNodes perms [] ∅ in
  let '(heap1, roots) := linkNodes perms treeMap heap0 [] in
  let roots' := sort_slice (less heap1) roots in
  match sortChildren sort_slice fuel heap1 roots' with
  | None => None
  | Some heap2 => Some (roots', heap2)
  end.

(** What Go's [sort.Slice] computes on a slice of at most 12 elements,
    where it is an insertion sort ([insertionSortLessFunc]): the stable
    sort, in which an element passes only elements strictly less than
    it. *)
Fixpoint insert_sorted (lt : addr → addr → bool) (x : addr) (l : list addr) : list addr :=
  match l with
  | [] => [x]
  | y :: l' => if lt y x then y :: insert_sorted lt x l' else x :: y :: l'
  end.

Fixpoint insertion_sort (lt : addr → addr → bool) (l : list addr) : list addr :=
  match l with
  | [] => []
  | x :: l' => insert_sorted lt x (insertion_sort lt l')
  end.

(** ** utils/response.go *)

(** What [encoding/json] writes. [JTime] is a [time.Time] in RFC 3339. *)
#[warnings="-register-all"]
Inductive json : Type :=
  | JNull
  | JNum (z : Z)
  | JStr (s : string)
  | JTime (t : Z)
  | JArr (items : list json)
  | JObj (fields : list (string * json)).

(** [Data interface{}] with [json:"data,omitempty"]: [None] is [nil]. *)
Record Response : Type := Build_Response {
  Response_Code : Z;
  Response_Msg : string;
  Response_Data : option json }.

Definition Success (data : option json) : Response :=
  {| Response_Code := 200; Response_Msg := "success"; Response_Data := data |}.

Definition Error (msg : string) : Response :=
  {| Response_Code := 500; Response_Msg := msg; Response_Data := None |}.

Definition json_Response (r : Response) : json :=
  JObj ([("code", JNum (Response_Code r)); ("msg", JStr (Response_Msg r))] ++
        match Response_Data r with
        | Some d => [("data", d)]
        | None => []
        end).

Record PageData : Type := Build_PageData {
  PageData_List : json;
  PageData_Total : Z;
  PageData_Page : Z;
  PageData_Size : Z }.

Definition NewPageData (list : json) (total page size : Z) : PageData :=
  {| PageData_List := list; PageData_Total := total;
     PageData_Page := page; PageData_Size := size |}.

Definition json_PageData (d : PageData) : json :=
  JObj [("list", PageData_List d); ("total", JNum (PageData_Total d));
        ("page", JNum (PageData_Page d)); ("pageSize", JNum (PageData_Size d))].

Definition StatusOK : Z := 200.
Definition StatusBadRequest : Z := 400.

(** ** The JSON form of the models, after their [json:"..."] tags *)

Fixpoint json_Role (r : Role) : json :=
  match r with
  | Build_Role id name code description created updated perms =>
      JObj ([("id", JNum (Z.of_nat id)); ("name", JStr name); ("code", JStr code);
             ("description", JStr description);
             ("created_at", JTime created); ("updated_at", JTime updated)] ++
            match perms with
            | [] => []
            | _ :: _ =>
                [("permissions",
                  JArr ((fix each (l : list Permission) : list json :=
                           match l with
                           | [] => []
                           | p :: l' => json_Permission p :: each l'
                           end) perms))]
            end)
  end
with json_Permission (p : Permission) : json :=
  match p with
  | Build_Permission id name code parent path type sort description created updated rs =>
      JObj ([("id", JNum (Z.of_nat id)); ("name", JStr name); ("code", JStr code);
             ("parent_code", JStr parent); ("path", JStr path);
             ("type", JNum type); ("sort", JNum sort);
             ("description", JStr description);
             ("created_at", JTime created); ("updated_at", JTime updated)] ++
            match rs with
            | [] => []
            | _ :: _ =>
                [("roles",
                  JArr ((fix each (l : list Role) : list json :=
                           match l with
                           | [] => []
                           | r :: l' => json_Role r :: each l'
                           end) rs))]
            end)
  end.

(** The fields of a [User] in its JSON object.  [Password] is tagged
    [json:"-"]: it has no entry.  [Role] is [omitempty]. *)
Definition User_fields (u : User) : list (string * json) :=
  [("id", JNum (Z.of_nat (User_ID u)));
   ("username", JStr (User_Username u));
   ("realname", JStr (User_Realname u));
   ("email", JStr (User_Email u));
   ("status", JNum (User_Status u));
   ("created_at", JTime (User_CreatedAt u));
   ("updated_at", JTime (User_UpdatedAt u))] ++
  match User_Role u with
  | Some r => [("role", json_Role r)]
  | None => []
  end ++
  [("role_id", match User_RoleID u with
               | Some i => JNum (Z.of_nat i)
               | None => JNull
               end)].

Definition json_User (u : User) : json := JObj (User_fields u).

(** ** Errors *)

Inductive error : Type :=
  | ErrRecordNotFound      (* gorm.ErrRecordNotFound *)
  | ErrUserNotFound        (* errors.New("用户不存在") *)
  | ErrUsernameExists      (* errors.New("用户名已存在") *)
  | ErrUniqueConstraint    (* the database refuses a second row with the same unique key *)
  | ErrColumn              (* the database refuses the column or the value *)
  | ErrBcrypt              (* bcrypt.GenerateFromPassword failed *)
  | ErrDatabase.           (* any other failure of the database *)

(** [err.Error()]. *)
Definition error_message (e : error) : string :=
  match e with
  | ErrRecordNotFound => "record not found"
  | ErrUserNotFound => "用户不存在"
  | ErrUsernameExists => "用户名已存在"
  | ErrUniqueConstraint => "UNIQUE constraint failed"
  | ErrColumn => "no such column"
  | ErrBcrypt => "bcrypt: password length exceeds 72 bytes"
  | ErrDatabase => "database error"
  end.

(** ** Go's [int] and GORM's queries *)

(** The values of Go's [int] on a 64-bit platform. *)
Definition is_int (z : Z) : Prop := (- 2 ^ 63 ≤ z < 2 ^ 63)%Z.

(** The [int] an arithmetic result wraps around to. *)
Definition wrap_int (z : Z) : Z := ((z + 2 ^ 63) mod 2 ^ 64 - 2 ^ 63)%Z.

(** [Offset(offset).Limit(limit).Find(&rows)], the rows being in rowid
    order: GORM's SQLite dialect (GORM 1.25.10 by STATUS_REPORT.md, where
    [Limit(0)] is LIMIT 0) writes OFFSET only for a positive offset and
    LIMIT only for a limit that is not negative. *)
Definition gorm_Offset_Limit {A} (offset limit : Z) (rows : list A) : list A :=
  let rows := if (0 <? offset)%Z then drop (Z.to_nat offset) rows else rows in
  if (0 <=? limit)%Z then take (Z.to_nat limit) rows else rows.

(** The next value of an autoincrement primary key. *)
Definition next_id (ids : list nat) : nat := S (max_list ids).

(** A row is stored and read back without its association fields. *)
Definition User_row (u : User) : User :=
  Build_User (User_ID u) (User_Username u) (User_Password u) (User_Realname u)
    (User_Email u) (User_Status u) (User_CreatedAt u) (User_UpdatedAt u)
    None (User_RoleID u).

Definition set_User_Password (pw : string) (u : User) : User :=
  Build_User (User_ID u) (User_Username u) pw (User_Realname u)
    (User_Email u) (User_Status u) (User_CreatedAt u) (User_UpdatedAt u)
    (User_Role u) (User_RoleID u).

Definition set_users (us : list User) (db : DB) : DB :=
  Build_DB us (roles db) (permissions db) (role_permissions db).

Definition set_roles (rs : list Role) (db : DB) : DB :=
  Build_DB (users db) rs (permissions db) (role_permissions db).

Definition set_permissions (ps : list Permission) (db : DB) : DB :=
  Build_DB (users db) (roles db) ps (role_permissions db).

Definition set_role_permissions (rp : list (nat * nat)) (db : DB) : DB :=
  Build_DB (users db) (roles db) (permissions db) rp.

(** [DB.Create(user)]: the primary key is assigned when it is zero, the
    timestamps are set when they are zero, a zero [Status] takes the
    column's default ([gorm:"default:1"]), and the unique index on
    [username] refuses a second row with the same name. *)
Definition gorm_Create_User (now : Z) (user : User) (db : DB)
    : error + (DB * User) :=
  if bool_decide (User_Username user ∈ User_Username <$> users db) then
    inl ErrUniqueConstraint
  else
    let id := if decide (User_ID user = 0) then next_id (User_ID <$> users db)
              else User_ID user in
    if bool_decide (id ∈ User_ID <$> users db) then inl ErrUniqueConstraint
    else
      let created := if decide (User_CreatedAt user = 0%Z) then now
                     else User_CreatedAt user in
      let updated := if decide (User_UpdatedAt user = 0%Z) then now
                     else User_UpdatedAt user in
      let status := if decide (User_Status user = 0%Z) then 1%Z
                    else User_Status user in
      let user' :=
        Build_User id (User_Username user) (User_Password user)
          (User_Realname user) (User_Email user) status
          created updated (User_Role user) (User_RoleID user) in
      inr (set_users (users db ++ [User_row user']) db, user').

(** A value of a [map[string]interface{}] the handlers build. *)
Inductive value : Type :=
  | VString (s : string)
  | VInt (z : Z).

(** The column value an update assigns: the map's entry when there is
    one, the stored value otherwise.  Only a string goes into a text
    column and only an integer into an integer column here. *)
Definition assign_string (v : option value) (old : string) : option string :=
  match v with
  | None => Some old
  | Some (VString s) => Some s
  | Some (VInt _) => None
  end.

Definition assign_int (v : option value) (old : Z) : option Z :=
  match v with
  | None => Some old
  | Some (VInt z) => Some z
  | Some (VString _) => None
  end.

(** [UPDATE users SET ..., updated_at = now] on one row, for the columns
    the services ever put in the map. *)
Definition update_User_row (now : Z) (updates : gmap string value) (u : User)
    : option User :=
  username ← assign_string (updates !! "username") (User_Username u);
  password ← assign_string (updates !! "password") (User_Password u);
  realname ← assign_string (updates !! "realname") (User_Realname u);
  email ← assign_string (updates !! "email") (User_Email u);
  status ← assign_int (updates !! "status") (User_Status u);
  Some (Build_User (User_ID u) username password realname email status
          (User_CreatedAt u) now (User_Role u) (User_RoleID u)).

Definition user_columns : gset string :=
  {[ "username"; "password"; "realname"; "email"; "status" ]}.

(** [DB.Model(&User{}).Where("id = ?", id).Updates(updates)]. *)
Definition gorm_Updates_User (now : Z) (id : nat) (updates : gmap string value)
    (db : DB) : DB * option error :=
  if bool_decide (dom updates ⊆ user_columns) then
    match mapM (λ u, if decide (User_ID u = id)
                     then update_User_row now updates u else Some u) (users db) with
    | None => (db, Some ErrColumn)
    | Some us =>
        if bool_decide (NoDup (User_Username <$> us))
        then (set_users us db, None)
        else (db, Some ErrUniqueConstraint)
    end
  else (db, Some ErrColumn).

Definition update_Role_row (now : Z) (updates : gmap string value) (r : Role)
    : option Role :=
  name ← assign_string (updates !! "name") (Role_Name r);
  code ← assign_string (updates !! "code") (Role_Code r);
  description ← assign_string (updates !! "description") (Role_Description r);
  Some (Build_Role (Role_ID r) name code description
          (Role_CreatedAt r) now (Role_Permissions r)).

Definition role_columns : gset string := {[ "name"; "code"; "description" ]}.

(** [DB.Model(&Role{}).Where("id = ?", id).Updates(updates)]. *)
Definition gorm_Updates_Role (now : Z) (id : nat) (updates : gmap string value)
    (db : DB) : DB * option error :=
  if bool_decide (dom updates ⊆ role_columns) then
    match mapM (λ r, if decide (Role_ID r = id)
                     then update_Role_row now updates r else Some r) (roles db) with
    | None => (db, Some ErrColumn)
    | Some rs =>
        if bool_decide (NoDup (Role_Code <$> rs))
        then (set_roles rs db, None)
        else (db, Some ErrUniqueConstraint)
    end
  else (db, Some ErrColumn).

(** ** golang.org/x/crypto/bcrypt, as the services use it

    [GenerateFromPassword] draws a random salt; the salt is an argument
    here.  It fails on a password it does not accept.
    [CompareHashAndPassword] is [true] when the error is [nil]. *)
Class Bcrypt : Type := Build_Bcrypt {
  bcrypt_GenerateFromPassword : string → string → option string;
  bcrypt_CompareHashAndPassword : string → string → bool }.

(** bcrypt reads the first 72 bytes of a password and no more. *)
Definition bcrypt_input (password : string) : string :=
  String.substring 0 72 password.

(** The shape of a hash made at [bcrypt.DefaultCost]: version 2a, cost 10. *)
Definition is_bcrypt_hash (hash : string) : Prop :=
  ∃ rest, hash = "$2a$10$" +:+ rest.

(** What the properties use of bcrypt: a hash [GenerateFromPassword]
    returns has the shape above, and [CompareHashAndPassword] accepts it
    for the password it was made from, and so for every password with
    the same first 72 bytes.  That no other password is accepted is not
    assumed. *)
Class BcryptSpec (B : Bcrypt) : Prop := Build_BcryptSpec {
  bcrypt_shape : ∀ password salt hash,
    bcrypt_GenerateFromPassword password salt = Some hash → is_bcrypt_hash hash;
  bcrypt_accepts : ∀ password salt hash password',
    bcrypt_GenerateFromPassword password salt = Some hash →
    bcrypt_input password' = bcrypt_input password →
    bcrypt_CompareHashAndPassword hash password' = true }.

(** ** services/user_service.go *)

(** [GetUserList].  The two queries fail only when the database does;
    there is no such failure here. *)
Definition GetUserList (page pageSize : Z) (db : DB) : list User * Z :=
  let offset := wrap_int (wrap_int (page - 1) * pageSize) in
  let total := Z.of_nat (length (users db)) in
  (gorm_Offset_Limit offset pageSize (users db), total).

(** [GetUserByID]: [First(&user, id)]. *)
Definition GetUserByID (id : nat) (db : DB) : error + User :=
  match list_find (λ u, User_ID u = id) (users db) with
  | Some (_, u) => inr u
  | None => inl ErrUserNotFound
  end.

(** [GetUserByUsername]: [Where("username = ?", username).First(&user)]. *)
Definition GetUserByUsername (username : string) (db : DB) : error + User :=
  match list_find (λ u, User_Username u = username) (users db) with
  | Some (_, u) => inr u
  | None => inl ErrUserNotFound
  end.

(** [CreateUser] writes the hash and the new primary key into [*user];
    the user comes back with the database and the error. *)
Definition CreateUser `{Bcrypt} (salt : string) (now : Z) (user : User) (db : DB)
    : DB * User * option error :=
  let count :=
    length (filter (λ u, User_Username u = User_Username user) (users db)) in
  if decide (0 < count) then (db, user, Some ErrUsernameExists)
  else
    match bcrypt_GenerateFromPassword (User_Password user) salt with
    | None => (db, user, Some ErrBcrypt)
    | Some hashedPassword =>
        let user := set_User_Password hashedPassword user in
        match gorm_Create_User now user db with
        | inl err => (db, user, Some err)
        | inr (db', user') => (db', user', None)
        end
    end.

(** [UpdateUser]: a non-empty string under ["password"] is replaced by its
    hash before the map goes to [Updates]. *)
Definition UpdateUser `{Bcrypt} (salt : string) (now : Z) (id : nat)
    (updates : gmap string value) (db : DB) : DB * option error :=
  match updates !! "password" with
  | Some (VString password) =>
      if decide (password ≠ "") then
        match bcrypt_GenerateFromPassword password salt with
        | None => (db, Some ErrBcrypt)
        | Some hashedPassword =>
            gorm_Updates_User now id
              (<["password" := VString hashedPassword]> updates) db
        end
      else gorm_Updates_User now id updates db
  | _ => gorm_Updates_User now id updates db
  end.

(** [DeleteUser]: [Delete(&User{}, id)]. *)
Definition DeleteUser (id : nat) (db : DB) : DB * option error :=
  (set_users (filter (λ u, User_ID u ≠ id) (users db)) db, None).

Definition VerifyPassword `{Bcrypt} (user : User) (password : string) : bool :=
  bcrypt_CompareHashAndPassword (User_Password user) password.

(** ** services/role_service.go *)

Definition GetRoleList (page pageSize : Z) (db : DB) : list Role * Z :=
  let offset := wrap_int (wrap_int (page - 1) * pageSize) in
  let total := Z.of_nat (length (roles db)) in
  (gorm_Offset_Limit offset pageSize (roles db), total).

Definition UpdateRole (now : Z) (id : nat) (updates : gmap string value) (db : DB)
    : DB * option error :=
  gorm_Updates_Role now id updates db.

(** [DeleteRole]: [models.DB.Delete(&models.Role{}, id)], that is,
    DELETE FROM roles WHERE id = ?.  GORM touches the join table of an
    association only through [Select] or [Association], and SQLite does
    not enforce foreign keys unless the connection asks for it. *)
Definition DeleteRole (id : nat) (db : DB) : DB * option error :=
  (set_roles (filter (λ r, Role_ID r ≠ id) (roles db)) db, None).

(** ** services/permission_service.go: [DeletePermission] *)

(** The statements of the transaction, each of which the database may
    fail. *)
Inductive tx_step : Type := TxBegin | TxFirst | TxClear | TxDelete | TxCommit.

(** A statement inside a transaction: it works on the transaction's view
    of the database and returns a value or an error. *)
Definition tx (A : Type) : Type := DB → error + (A * DB).

Definition tx_ret {A} (a : A) : tx A := λ db, inr (a, db).

Definition tx_bind {A B} (m : tx A) (k : A → tx B) : tx B :=
  λ db, match m db with
        | inl err => inl err
        | inr (a, db') => k a db'
        end.

Notation "x ←ₜ m ; k" := (tx_bind m (λ x, k))
  (at level 100, m at next level, right associativity).

(** A statement the database fails when [fails] says so. *)
Definition tx_stmt {A} (fails : bool) (m : tx A) : tx A :=
  λ db, if fails then inl ErrDatabase else m db.

(** [tx.First(&permission, id)]. *)
Definition tx_First_Permission (id : nat) : tx Permission :=
  λ db, match list_find (λ p, Permission_ID p = id) (permissions db) with
        | Some (_, p) => inr (p, db)
        | None => inl ErrRecordNotFound
        end.

(** [tx.Model(&permission).Association("Roles").Clear()]. *)
Definition tx_Clear_Roles (permission : Permission) : tx unit :=
  λ db, inr ((), set_role_permissions
                   (filter (λ rp, rp.2 ≠ Permission_ID permission) (role_permissions db))
                   db).

(** [tx.Delete(&permission)]. *)
Definition tx_Delete_Permission (permission : Permission) : tx unit :=
  λ db, inr ((), set_permissions
                   (filter (λ p, Permission_ID p ≠ Permission_ID permission) (permissions db))
                   db).

(** [Begin], the three statements with a [Rollback] after the first that
    fails, [Commit]. *)
Definition DeletePermission (fails : tx_step → bool) (id : nat) (db : DB)
    : DB * option error :=
  if fails TxBegin then (db, Some ErrDatabase)
  else
    match (permission ←ₜ tx_stmt (fails TxFirst) (tx_First_Permission id);
           _ ←ₜ tx_stmt (fails TxClear) (tx_Clear_Roles permission);
           tx_stmt (fails TxDelete) (tx_Delete_Permission permission)) db with
    | inl err => (db, Some err)
    | inr (_, db') =>
        if fails TxCommit then (db, Some ErrDatabase) else (db', None)
    end.

(** ** api: the handlers *)

Record LoginRequest : Type := Build_LoginRequest {
  LoginRequest_Username : string;
  LoginRequest_Password : string }.

(** [c.ShouldBindJSON(&req)] with [binding:"required"] on both fields;
    [None] is a body that is not JSON. *)
Definition bind_LoginRequest (body : option LoginRequest) : option LoginRequest :=
  match body with
  | Some req =>
      if decide (LoginRequest_Username req ≠ "" ∧ LoginRequest_Password req ≠ "")
      then Some req else None
  | None => None
  end.

(** [gin.H] is a map: its keys are written in sorted order. *)
Definition login_data (token : string) (user : User) : json :=
  JObj [("token", JStr token);
        ("user", JObj [("email", JStr (User_Email user));
                       ("id", JNum (Z.of_nat (User_ID user)));
                       ("realname", JStr (User_Realname user));
                       ("username", JStr (User_Username user))])].

(** [AuthController.Login].  [GenerateToken] is [utils.GenerateToken]. *)
Definition Login `{Bcrypt} (GenerateToken : nat → string → option string)
    (body : option LoginRequest) (db : DB) : Z * Response :=
  match bind_LoginRequest body with
  | None => (StatusBadRequest, Error "参数错误")
  | Some req =>
      match GetUserByUsername (LoginRequest_Username req) db with
      | inl _ => (StatusOK, Error "用户名或密码错误")
      | inr user =>
          if negb (VerifyPassword user (LoginRequest_Password req)) then
            (StatusOK, Error "用户名或密码错误")
          else
            match GenerateToken (User_ID user) (User_Username user) with
            | None => (StatusOK, Error "生成 token 失败")
            | Some token => (StatusOK, Success (Some (login_data token user)))
            end
      end
  end.

(** [UserController.GetList]; [page] and [pageSize] are what
    [strconv.Atoi] made of the query. *)
Definition UserController_GetList (page pageSize : Z) (db : DB) : Z * Response :=
  let '(users, total) := GetUserList page pageSize db in
  (StatusOK,
   Success (Some (json_PageData
     (NewPageData (JArr (json_User <$> users)) total page pageSize)))).

Definition UserController_GetDetail (id : nat) (db : DB) : Z * Response :=
  match GetUserByID id db with
  | inl err => (StatusOK, Error (error_message err))
  | inr user => (StatusOK, Success (Some (json_User user)))
  end.

Record CreateUserRequest : Type := Build_CreateUserRequest {
  CreateUserRequest_Username : string;
  CreateUserRequest_Password : string;
  CreateUserRequest_Realname : string;
  CreateUserRequest_Email : string }.

(** [binding:"required"] on the four fields, and ["email"] on the last:
    [valid_email] is the validator's check. *)
Definition bind_CreateUserRequest (valid_email : string → bool)
    (body : option CreateUserRequest) : option CreateUserRequest :=
  match body with
  | Some req =>
      if decide (CreateUserRequest_Username req ≠ "" ∧
                 CreateUserRequest_Password req ≠ "" ∧
                 CreateUserRequest_Realname req ≠ "" ∧
                 CreateUserRequest_Email req ≠ "" ∧
                 valid_email (CreateUserRequest_Email req) = true)
      then Some req else None
  | None => None
  end.

Definition UserController_Create `{Bcrypt} (valid_email : string → bool)
    (salt : string) (now : Z) (body : option CreateUserRequest) (db : DB)
    : DB * (Z * Response) :=
  match bind_CreateUserRequest valid_email body with
  | None => (db, (StatusBadRequest, Error "参数错误"))
  | Some req =>
      let user :=
        Build_User 0 (CreateUserRequest_Username req) (CreateUserRequest_Password req)
          (CreateUserRequest_Realname req) (CreateUserRequest_Email req) 1
          0 0 None None in
      match CreateUser salt now user db with
      | (db', _, Some err) => (db', (StatusOK, Error (error_message err)))
      | (db', user', None) => (db', (StatusOK, Success (Some (json_User user'))))
      end
  end.

Record UpdateUserRequest : Type := Build_UpdateUserRequest {
  UpdateUserRequest_Username : string;
  UpdateUserRequest_Realname : string;
  UpdateUserRequest_Email : string;
  UpdateUserRequest_Status : option Z }.

(** [if req.F != "" { updates["f"] = req.F }]. *)
Definition put_string (key : string) (s : string) (updates : gmap string value)
    : gmap string value :=
  if decide (s ≠ "") then <[key := VString s]> updates else updates.

Definition user_updates (req : UpdateUserRequest) : gmap string value :=
  let updates := ∅ in
  let updates := put_string "username" (UpdateUserRequest_Username req) updates in
  let updates := put_string "realname" (UpdateUserRequest_Realname req) updates in
  let updates := put_string "email" (UpdateUserRequest_Email req) updates in
  match UpdateUserRequest_Status req with
  | Some status => <["status" := VInt status]> updates
  | None => updates
  end.

(** [UserController.Update]; the request has no binding tag, so only a
    body that is not JSON ([None]) is refused. *)
Definition UserController_Update `{Bcrypt} (salt : string) (now : Z) (id : nat)
    (body : option UpdateUserRequest) (db : DB) : DB * (Z * Response) :=
  match body with
  | None => (db, (StatusBadRequest, Error "参数错误"))
  | Some req =>
      match UpdateUser salt now id (user_updates req) db with
      | (db', Some err) => (db', (StatusOK, Error (error_message err)))
      | (db', None) => (db', (StatusOK, Success None))
      end
  end.

Record UpdateRoleRequest : Type := Build_UpdateRoleRequest {
  UpdateRoleRequest_Name : string;
  UpdateRoleRequest_Code : string;
  UpdateRoleRequest_Description : string }.

Definition role_updates (req : UpdateRoleRequest) : gmap string value :=
  let updates := ∅ in
  let updates := put_string "name" (UpdateRoleRequest_Name req) updates in
  let updates := put_string "code" (UpdateRoleRequest_Code req) updates in
  put_string "description" (UpdateRoleRequest_Description req) updates.

Definition RoleController_Update (now : Z) (id : nat)
    (body : option UpdateRoleRequest) (db : DB) : DB * (Z * Response) :=
  match body with
  | None => (db, (StatusBadRequest, Error "参数错误"))
  | Some req =>
      match UpdateRole now id (role_updates req) db with
      | (db', Some err) => (db', (StatusOK, Error (error_message err)))
      | (db', None) => (db', (StatusOK, Success None))
      end
  end.

(** [RoleController.Delete]. *)
Definition RoleController_Delete (id : nat) (db : DB) : DB * (Z * Response) :=
  match DeleteRole id db with
  | (db', Some _) => (db', (StatusOK, Error "删除角色失败"))
  | (db', None) => (db', (StatusOK, Success None))
  end.

(** * The vocabulary of the properties *)

(** ** What [sort.Slice] promises

    [sort.Slice] is the Go standard library's: it rearranges the slice so
    that no element is less than an element before it, provided [less] is
    a strict weak ordering of the elements; it is not stable. *)
Definition strict_weak_on (l : list addr) (lt : addr → addr → bool) : Prop :=
  (∀ a, a ∈ l → lt a a = false) ∧
  (∀ a b c, a ∈ l → b ∈ l → c ∈ l → lt a b = true → lt b c = true → lt a c = true) ∧
  (∀ a b c, a ∈ l → b ∈ l → c ∈ l → lt a b = false → lt b c = false → lt a c = false).

Definition sorts (sort_slice : (addr → addr → bool) → list addr → list addr) : Prop :=
  ∀ lt l, sort_slice lt l ≡ₚ l ∧
    (strict_weak_on l lt → Sorted (λ a b, lt b a = false) (sort_slice lt l)).

(** ** Ordering by (type, sort) *)

Definition key_le (tx sx ty sy : Z) : Prop :=
  (tx < ty)%Z ∨ (tx = ty ∧ (sx ≤ sy)%Z).



(** ** Reading the result of [GetPermissionTrees] *)

(** The node [n] is the one built for [p]: up to the links the second loop
    adds, it is [newNode p]. *)
Definition built_from (n : PermissionTree) (p : Permission) : Prop :=
  set_Children [] (set_HasChildren false n) = newNode p.

Definition node_at (heap : list PermissionTree) (p : Permission) (a : addr) : Prop :=
  ∃ n, heap !! a = Some n ∧ built_from n p.

(** [p] appears in the [Children] slice of the node of [q], and that node
    has [HasChildren] set. *)
Definition nested (heap : list PermissionTree) (p q : Permission) : Prop :=
  ∃ a b nq, node_at heap p a ∧ heap !! b = Some nq ∧ built_from nq q ∧
            a ∈ Children nq ∧ HasChildren nq = true.

(** The nodes of the returned forest: the roots and, below a node of the
    forest, its children. *)
Inductive in_forest (heap : list PermissionTree) (roots : list addr) : addr → Prop :=
  | in_forest_root a : a ∈ roots → in_forest heap roots a
  | in_forest_child a b nb :
      in_forest heap roots b → heap !! b = Some nb → a ∈ Children nb →
      in_forest heap roots a.

(** ** What an update and a response may depend on *)

(** A text column after an update request that sent [sent] for it: an
    empty [sent] leaves the stored value, and the new value is empty only
    if the stored one was. *)
Definition field_kept (sent old new : string) : Prop :=
  (sent = "" → new = old) ∧ (new = "" → old = "").

(** The database with every stored password hash replaced by the empty
    string. *)
Definition erase_passwords (db : DB) : DB :=
  set_users (set_User_Password "" <$> users db) db.

Definition login_failed : Z * Response := (StatusOK, Error "用户名或密码错误").

(** ** A stand-in for bcrypt

    The examples below run on this instance.  It is no hash; like
    bcrypt it writes the prefix of version and cost and reads the first
    72 bytes of the password. *)
Definition bcrypt_model : Bcrypt :=
  {| bcrypt_GenerateFromPassword := λ password _,
       Some ("$2a$10$" +:+ bcrypt_input password);
     bcrypt_CompareHashAndPassword := λ hash password,
       bool_decide (hash = "$2a$10$" +:+ bcrypt_input password) |}.

(** A password of 72 bytes. *)
Definition password_72 : string :=
  "aaaaaaaaaaaaaaaaaaaaaaaaaaaaaaaaaaaaaaaaaaaaaaaaaaaaaaaaaaaaaaaaaaaaaaaa".

(** ** Sample databases *)

(** A permission table in the shape of the seeded one. *)
Definition perm (id : nat) (code parent : string) (type sort : Z) : Permission :=
  Build_Permission id code code parent "" type sort "" 0 0 [].

Definition db_of_permissions (ps : list Permission) : DB :=
  {| users := []; roles := []; permissions := ps; role_permissions := [] |}.

Definition db_seed : DB :=
  db_of_permissions
    [perm 1 "system" "" 1 0;
     perm 2 "system:user" "system" 1 1;
     perm 3 "system:role" "system" 1 2;
     perm 5 "system:user:view" "system:user" 2 1;
     perm 15 "dashboard" "" 1 0].

(** A root and a permission whose parent code names no permission. *)
Definition db_orphan : DB :=
  db_of_permissions [perm 1 "system" "" 1 0; perm 2 "ghost:child" "ghost" 1 1].


(** The administrator role holding the one permission of the table. *)
Definition db_admin_role : DB :=
  {| users := [];
     roles := [Build_Role 1 "超级管理员" "admin" "系统超级管理员" 0 0 []];
     permissions := [perm 1 "system" "" 1 0];
     role_permissions := [(1, 1)] |}.

Definition user (id : nat) (username password : string) : User :=
  Build_User id username password username (username +:+ "@example.com") 1 0 0 None None.

Definition db_one_user : DB :=
  {| users := [user 1 "admin" "$2a$10$hash"]; roles := []; permissions := [];
     role_permissions := [] |}.

Definition db_admin : DB :=
  {| users := [user 1 "admin" "$2a$10$admin123"]; roles := []; permissions := [];
     role_permissions := [] |}.

(** Three users, two roles and the seeded permissions: the administrator
    holds every permission, the second role holds "dashboard" only, and
    the third user has no role. *)
Definition user_with_role (id : nat) (username password : string)
    (roleID : option nat) : User :=
  Build_User id username password username (username +:+ "@example.com") 1 0 0
    None roleID.

Definition db_rbac : DB :=
  {| users := [user_with_role 1 "admin" "$2a$10$admin123" (Some 1);
               user_with_role 2 "guest" "$2a$10$guest123" (Some 2);
               user_with_role 3 "nobody" "$2a$10$nobody123" None];
     roles := [Build_Role 1 "超级管理员" "admin" "系统超级管理员" 0 0 [];
               Build_Role 2 "普通用户" "user" "普通用户" 0 0 []];
     permissions := permissions db_seed;
     role_permissions := [(1, 1); (1, 2); (1, 3); (1, 5); (1, 15); (2, 15)] |}.

(** * Properties *)

(** Closes a decidable, closed goal by evaluating its decision procedure. *)
Ltac decide_by_computation :=
  apply (bool_decide_unpack _); vm_compute; exact I.

(** ** Lists with a key *)

Lemma NoDup_fmap_elem_inj {A B} (f : A → B) (l : list A) x y :
  NoDup (f <$> l) → x ∈ l → y ∈ l → f x = f y → x = y.
Proof.
  induction l as [|z l IH]; intros Hnd Hx Hy Hf; [by apply not_elem_of_nil in Hx|].
  rewrite fmap_cons in Hnd. apply NoDup_cons in Hnd as [Hz Hnd].
  apply elem_of_cons in Hx as [->|Hx]; apply elem_of_cons in Hy as [->|Hy].
  - done.
  - exfalso. apply Hz. rewrite Hf. by apply list_elem_of_fmap_2.
  - exfalso. apply Hz. rewrite <- Hf. by apply list_elem_of_fmap_2.
  - by apply IH.
Qed.

Lemma list_find_None_not_elem {A B} `{EqDecision B} (f : A → B) (b : B) (l : list A) :
  list_find (λ x, f x = b) l = None ↔ b ∉ f <$> l.
Proof.
  rewrite list_find_None, Forall_forall. split.
  - intros Hall Hin. apply list_elem_of_fmap in Hin as (x & -> & Hx). by apply (Hall x).
  - intros Hnin x Hx Hfx. apply Hnin. rewrite <- Hfx. by apply list_elem_of_fmap_2.
Qed.

Lemma list_find_is_Some_elem {A B} `{EqDecision B} (f : A → B) (b : B) (l : list A) :
  b ∈ f <$> l → ∃ i x, list_find (λ x, f x = b) l = Some (i, x) ∧ f x = b.
Proof.
  intros Hin. destruct (list_find (λ x, f x = b) l) as [[i x]|] eqn:Hfind.
  - exists i, x. split; [done|]. by apply list_find_Some in Hfind as (_ & ? & _).
  - by apply list_find_None_not_elem in Hfind.
Qed.

(** ** Insertion sort keeps the promise of [sort.Slice] *)

Lemma insert_sorted_perm lt x l : insert_sorted lt x l ≡ₚ x :: l.
Proof.
  induction l as [|y l IH]; simpl; [done|].
  destruct (lt y x); [|done].
  rewrite IH. apply Permutation_swap.
Qed.

Lemma insertion_sort_perm lt l : insertion_sort lt l ≡ₚ l.
Proof.
  induction l as [|x l IH]; simpl; [done|].
  by rewrite insert_sorted_perm, IH.
Qed.

Lemma insert_sorted_Sorted lt x l :
  (∀ a b, a ∈ x :: l → b ∈ x :: l → lt a b = true → lt b a = false) →
  Sorted (λ a b, lt b a = false) l →
  Sorted (λ a b, lt b a = false) (insert_sorted lt x l).
Proof.
  intros Hasym. induction 1 as [|y l Hl IH Hhd]; simpl.
  - repeat constructor.
  - destruct (lt y x) eqn:Hyx.
    + constructor.
      * apply IH. intros a b Ha Hb. apply Hasym.
        -- rewrite elem_of_cons in Ha. rewrite !elem_of_cons. tauto.
        -- rewrite elem_of_cons in Hb. rewrite !elem_of_cons. tauto.
      * destruct Hhd as [|z l Hz]; simpl.
        { constructor. apply Hasym; [set_solver|set_solver|done]. }
        destruct (lt z x); constructor; [done|].
        apply Hasym; [set_solver|set_solver|done].
    + constructor; [by constructor|]. by constructor.
Qed.

Lemma insertion_sort_sorts : sorts insertion_sort.
Proof.
  intros lt l. split; [apply insertion_sort_perm|].
  intros (Hirr & Htrans & _).
  assert (Hasym : ∀ a b, a ∈ l → b ∈ l → lt a b = true → lt b a = false).
  { intros a b Ha Hb Hab. destruct (lt b a) eqn:Hba; [|done].
    rewrite <- (Hirr a Ha). symmetry. by apply (Htrans a b a). }
  clear Hirr Htrans.
  induction l as [|x l IH]; simpl; [constructor|].
  apply insert_sorted_Sorted.
  - intros a b Ha Hb. apply Hasym.
    + by rewrite <- (insertion_sort_perm lt l).
    + by rewrite <- (insertion_sort_perm lt l).
  - apply IH. intros a b Ha Hb. apply Hasym; set_solver.
Qed.

Lemma sort_slice_sorts_perm sort_slice :
  sorts sort_slice → ∀ lt l, sort_slice lt l ≡ₚ l.
Proof. intros Hs lt l. by destruct (Hs lt l). Qed.

(** ** Parent chains

    [chain par l]: each element of [l] has the next one as its parent, and
    the last one has none. *)
Inductive chain (par : addr → option addr) : list addr → Prop :=
  | chain_root r : par r = None → chain par [r]
  | chain_cons c p rest :
      par c = Some p → chain par (p :: rest) → chain par (c :: p :: rest).

Lemma chain_det par x l1 l2 :
  chain par (x :: l1) → chain par (x :: l2) → l1 = l2.
Proof.
  revert x l2. induction l1 as [|p l1 IH]; intros x l2 H1 H2.
  - inversion H1; subst. inversion H2; subst; [done|congruence].
  - inversion H1; subst. inversion H2; subst; [congruence|].
    assert (p = p0) by congruence. subst p0. f_equal. by eapply IH.
Qed.

Lemma chain_suffix par l1 x l2 :
  chain par (l1 ++ x :: l2) → chain par (x :: l2).
Proof.
  induction l1 as [|y l1 IH]; simpl; [done|].
  intros H. inversion H; subst.
  - by destruct l1.
  - apply IH. by rewrite <- H1.
Qed.

Lemma chain_NoDup par l : chain par l → NoDup l.
Proof.
  induction l as [|x l IH]; intros H; [constructor|].
  constructor.
  - intros Hin. apply list_elem_of_split in Hin as (l1 & l2 & ->).
    pose proof (chain_suffix par (x :: l1) x l2 H) as H'.
    pose proof (chain_det _ _ _ _ H H') as Heq.
    apply (f_equal length) in Heq. rewrite length_app in Heq. simpl in Heq. lia.
  - inversion H; subst; [constructor|]. by apply IH.
Qed.

Lemma chain_length par l n :
  chain par l → Forall (λ a, a < n) l → length l ≤ n.
Proof.
  intros Hc Hlt. pose proof (chain_NoDup _ _ Hc) as Hnd.
  assert (l ⊆ seq 0 n) as Hsub.
  { intros a Ha. rewrite Forall_forall in Hlt. apply elem_of_seq. specialize (Hlt a Ha). lia. }
  pose proof (NoDup_submseteq _ _ Hnd Hsub) as Hs.
  apply submseteq_length in Hs. by rewrite length_seq in Hs.
Qed.

(** ** The two loops *)

(** What the second loop appends for one permission: to [roots], and to
    the [Children] of the node at address [a]. *)
Definition rootOf (treeMap : gmap string addr) (p : Permission) : option addr :=
  if decide (Permission_ParentCode p = "") then treeMap !! Permission_Code p
  else None.

Definition childOf (treeMap : gmap string addr) (a : addr) (p : Permission)
    : option addr :=
  if decide (Permission_ParentCode p = "") then None
  else if decide (treeMap !! Permission_ParentCode p = Some a)
       then treeMap !! Permission_Code p else None.

Definition addChildren (cs : list addr) (node : PermissionTree) : PermissionTree :=
  match cs with
  | [] => node
  | _ :: _ => set_HasChildren true (set_Children (Children node ++ cs) node)
  end.

Lemma addChildren_appendChild c cs x :
  addChildren cs (appendChild c x) = addChildren (c :: cs) x.
Proof.
  destruct cs; [done|]. unfold addChildren, appendChild, set_HasChildren, set_Children.
  simpl. by rewrite <- app_assoc.
Qed.

Lemma createNodes_spec perms : ∀ heap tm heap' tm',
  NoDup (Permission_Code <$> perms) →
  createNodes perms heap tm = (heap', tm') →
  heap' = heap ++ (newNode <$> perms) ∧
  (∀ i p, perms !! i = Some p →
     tm' !! Permission_Code p = Some (length heap + i)) ∧
  (∀ c, c ∉ Permission_Code <$> perms → tm' !! c = tm !! c).
Proof.
  induction perms as [|q perms IH]; intros heap tm heap' tm' Hnd Hc; simpl in Hc.
  - inversion Hc; subst. rewrite app_nil_r. split_and!; [done| |done].
    intros i p Hi. by rewrite lookup_nil in Hi.
  - rewrite fmap_cons in Hnd. apply NoDup_cons in Hnd as [Hq Hnd].
    apply IH in Hc as (-> & Hl & Hn); [|done].
    split_and!.
    + by rewrite <- app_assoc.
    + intros [|i] p Hi; simpl in Hi.
      * injection Hi as <-. rewrite Hn by done. rewrite lookup_insert_eq.
        f_equal. lia.
      * rewrite (Hl i p Hi), length_app. simpl. f_equal. lia.
    + intros c Hcn. rewrite fmap_cons, not_elem_of_cons in Hcn.
      destruct Hcn as [Hne Hcn]. rewrite Hn by done.
      by apply lookup_insert_ne.
Qed.

Lemma linkNodes_spec tm perms : ∀ heap roots heap' roots',
  linkNodes perms tm heap roots = (heap', roots') →
  roots' = roots ++ omap (rootOf tm) perms ∧
  length heap' = length heap ∧
  (∀ a x, heap !! a = Some x →
     heap' !! a = Some (addChildren (omap (childOf tm a) perms) x)).
Proof.
  induction perms as [|p perms IH]; intros heap roots heap' roots' H; simpl in H.
  - inversion H; subst. by rewrite app_nil_r.
  - simpl omap. unfold rootOf at 1. unfold childOf at 1.
    destruct (tm !! Permission_Code p) as [node|] eqn:Hc.
    + destruct (decide (Permission_ParentCode p = "")) as [He|He].
      * apply IH in H as (-> & Hlen & Hl). by rewrite <- app_assoc.
      * destruct (tm !! Permission_ParentCode p) as [parent|] eqn:Hp.
        -- apply IH in H as (-> & Hlen & Hl).
           split_and!; [done|by rewrite Hlen, length_alter|].
           intros a x Hx. destruct (decide (parent = a)) as [->|Hne].
           ++ rewrite decide_True by done.
              rewrite (Hl a (appendChild node x)).
              ** by rewrite addChildren_appendChild.
              ** by rewrite list_lookup_alter_eq, Hx.
           ++ rewrite decide_False by congruence.
              apply Hl. by rewrite list_lookup_alter_ne.
        -- apply IH in H as (-> & Hlen & Hl).
           split_and!; [done..|]. intros a x Hx.
           rewrite decide_False by done. by apply Hl.
    + apply IH in H as (-> & Hlen & Hl).
      split_and!; [by destruct (decide _)|done|].
      intros a x Hx. rewrite (Hl a x Hx).
      destruct (decide _); [done|]. by destruct (decide _).
Qed.

(** ** Ordering by (type, sort) *)

Lemma db_order_key_le p q :
  db_order p q →
  key_le (Permission_Type p) (Permission_Sort p) (Permission_Type q) (Permission_Sort q).
Proof. unfold db_order, key_le. lia. Qed.

#[global] Instance db_order_trans : Transitive db_order.
Proof. intros p q r. unfold db_order. lia. Qed.

#[global] Instance db_order_total : Total db_order.
Proof. intros p q. unfold db_order. lia. Qed.

Lemma StronglySorted_omap {A B} (R : relation A) (R' : relation B)
    (f : A → option B) (l : list A) :
  StronglySorted R l →
  (∀ x y a b, x ∈ l → y ∈ l → f x = Some a → f y = Some b → R x y → R' a b) →
  StronglySorted R' (omap f l).
Proof.
  induction 1 as [|x l Hl IH Hx]; intros HR; simpl; [constructor|].
  assert (StronglySorted R' (omap f l)) as Hrec.
  { apply IH. intros x' y' a b Hx' Hy'. apply HR; by constructor. }
  destruct (f x) as [a|] eqn:Hfx; [|done].
  constructor; [done|].
  apply Forall_forall. intros b Hb.
  apply list_elem_of_omap in Hb as (y & Hy & Hfy).
  rewrite Forall_forall in Hx.
  apply (HR x y); [by left|by right|done|done|by apply Hx].
Qed.

Lemma Sorted_impl_elem {A} (R R' : relation A) (l : list A) :
  Sorted R l →
  (∀ a b, a ∈ l → b ∈ l → R a b → R' a b) →
  Sorted R' l.
Proof.
  induction 1 as [|x l Hl IH Hx]; intros HR; constructor.
  - apply IH. intros a b Ha Hb. apply HR; by right.
  - destruct Hx as [|y l Hy]; constructor.
    apply HR; [by left|by right; left|done].
Qed.

(** ** The node table after the second loop

    [perms] is the list the loops ran over and [tm] the map the first loop
    built; with unique codes, the node of [perms !! i] is at address [i]. *)
Section Linked.
Variable perms : list Permission.
Variable tm : gmap string addr.
Hypothesis tm_code :
  ∀ i p, perms !! i = Some p → tm !! Permission_Code p = Some i.
Hypothesis perms_sorted : StronglySorted db_order perms.

Variable sort_slice : (addr → addr → bool) → list addr → list addr.
Hypothesis sort_slice_sorts : sorts sort_slice.

(** The node the parent pointer of the node at [c] leads to. *)
Definition parent_of (c : addr) : option addr :=
  match perms !! c with
  | Some p =>
      if decide (Permission_ParentCode p = "") then None
      else tm !! Permission_ParentCode p
  | None => None
  end.

Definition valid_path (l : list addr) : Prop :=
  chain parent_of l ∧ Forall (λ a, a < length perms) l.

Lemma tm_code_inj i j p q :
  perms !! i = Some p → perms !! j = Some q →
  Permission_Code p = Permission_Code q → i = j.
Proof.
  intros Hi Hj Hc. apply tm_code in Hi, Hj. rewrite Hc in Hi. congruence.
Qed.

Lemma rootOf_Some p c :
  p ∈ perms → rootOf tm p = Some c →
  perms !! c = Some p ∧ Permission_ParentCode p = "".
Proof.
  intros Hp. unfold rootOf. destruct (decide _) as [He|]; [|done].
  intros Hc. apply list_elem_of_lookup in Hp as (i & Hi).
  rewrite (tm_code i p Hi) in Hc. injection Hc as <-. done.
Qed.

Lemma childOf_Some a p c :
  p ∈ perms → childOf tm a p = Some c →
  perms !! c = Some p ∧ Permission_ParentCode p ≠ "" ∧
  tm !! Permission_ParentCode p = Some a.
Proof.
  intros Hp. unfold childOf. destruct (decide _) as [|He]; [done|].
  destruct (decide _) as [Ha|]; [|done].
  intros Hc. apply list_elem_of_lookup in Hp as (i & Hi).
  rewrite (tm_code i p Hi) in Hc. injection Hc as <-. done.
Qed.

Lemma childOf_parent a c :
  c ∈ omap (childOf tm a) perms → parent_of c = Some a ∧ c < length perms.
Proof.
  intros Hc. apply list_elem_of_omap in Hc as (p & Hp & Hc).
  apply childOf_Some in Hc as (Hl & He & Ha); [|done].
  split; [|by eapply lookup_lt_Some]. unfold parent_of. rewrite Hl.
  by rewrite decide_False.
Qed.

Lemma rootOf_parent c :
  c ∈ omap (rootOf tm) perms → parent_of c = None ∧ c < length perms.
Proof.
  intros Hc. apply list_elem_of_omap in Hc as (p & Hp & Hc).
  apply rootOf_Some in Hc as (Hl & He); [|done].
  split; [|by eapply lookup_lt_Some]. unfold parent_of. rewrite Hl.
  by rewrite decide_True.
Qed.

(** Order of two addresses by the permissions behind them. *)
Definition perm_le (a b : addr) : Prop :=
  ∃ p q, perms !! a = Some p ∧ perms !! b = Some q ∧
    key_le (Permission_Type p) (Permission_Sort p)
           (Permission_Type q) (Permission_Sort q).

#[local] Instance perm_le_trans : Transitive perm_le.
Proof.
  intros a b c (p & q & Hp & Hq & H1) (q' & r & Hq' & Hr & H2).
  assert (q' = q) as -> by congruence.
  exists p, r. split_and!; [done..|]. unfold key_le in *. lia.
Qed.

Lemma omap_perm_sorted (f : Permission → option addr) :
  (∀ p c, p ∈ perms → f p = Some c → perms !! c = Some p) →
  StronglySorted perm_le (omap f perms).
Proof.
  intros Hf. eapply StronglySorted_omap; [exact perms_sorted|].
  intros p q a b Hp Hq Ha Hb Hpq. exists p, q.
  split_and!; [by apply Hf|by apply Hf|by apply db_order_key_le].
Qed.

(** A node table whose node at [i] carries the fields of [perms !! i]
    and, in some order sorted by (type, sort), the children the second
    loop gave it. *)
Definition linked (h : list PermissionTree) : Prop :=
  length h = length perms ∧
  ∀ i p, perms !! i = Some p →
    ∃ node, h !! i = Some node ∧
      set_Children [] (set_HasChildren false node) = newNode p ∧
      Children node ≡ₚ omap (childOf tm i) perms ∧
      HasChildren node = bool_decide (omap (childOf tm i) perms ≠ []) ∧
      StronglySorted perm_le (Children node).

Lemma linked_after_loops h roots :
  linkNodes perms tm (newNode <$> perms) [] = (h, roots) →
  linked h ∧ roots = omap (rootOf tm) perms.
Proof.
  intros H. apply linkNodes_spec in H as (-> & Hlen & Hl).
  split; [|done]. split; [by rewrite Hlen, length_fmap|].
  intros i p Hi. eexists. split; [apply Hl; by rewrite list_lookup_fmap, Hi|].
  assert (StronglySorted perm_le (omap (childOf tm i) perms)) as Hs.
  { apply omap_perm_sorted. intros q c Hq Hc. by apply childOf_Some in Hc as (? & _). }
  destruct (omap (childOf tm i) perms) as [|c cs] eqn:Hcs; simpl.
  - split_and!; [done|done|done|constructor].
  - split_and!; [done|done|done|done].
Qed.

Lemma linked_fields h a p x :
  linked h → perms !! a = Some p → h !! a = Some x →
  Type_ x = Permission_Type p ∧ Sort x = Permission_Sort p.
Proof.
  intros [_ Hl] Hp Hx. destruct (Hl a p Hp) as (node & Hn & Hf & _).
  assert (node = x) as -> by congruence.
  split; [apply (f_equal Type_) in Hf|apply (f_equal Sort) in Hf]; done.
Qed.

Lemma linked_lookup h a :
  linked h → a < length perms →
  ∃ p x, perms !! a = Some p ∧ h !! a = Some x.
Proof.
  intros Hl Ha. apply lookup_lt_is_Some in Ha as [p Hp].
  destruct Hl as [_ Hl]. destruct (Hl a p Hp) as (x & Hx & _). eauto.
Qed.

Lemma less_linked h a b p q :
  linked h → perms !! a = Some p → perms !! b = Some q →
  less h a b =
    if (Permission_Type p =? Permission_Type q)%Z
    then (Permission_Sort p <? Permission_Sort q)%Z
    else (Permission_Type p <? Permission_Type q)%Z.
Proof.
  intros Hl Hp Hq.
  destruct (linked_lookup h a Hl) as (p' & x & Hp' & Hx); [by eapply lookup_lt_Some|].
  destruct (linked_lookup h b Hl) as (q' & y & Hq' & Hy); [by eapply lookup_lt_Some|].
  unfold less. rewrite Hx, Hy.
  destruct (linked_fields h a p x Hl Hp Hx) as [-> ->].
  by destruct (linked_fields h b q y Hl Hq Hy) as [-> ->].
Qed.

Lemma less_strict_weak h l :
  linked h → Forall (λ a, a < length perms) l → strict_weak_on l (less h).
Proof.
  intros Hl Hall. rewrite Forall_forall in Hall.
  assert (∀ a, a ∈ l → ∃ p, perms !! a = Some p) as Hp.
  { intros a Ha. by apply lookup_lt_is_Some, Hall. }
  split_and!.
  - intros a Ha. destruct (Hp a Ha) as [p Hpa].
    rewrite (less_linked h a a p p) by done.
    rewrite Z.eqb_refl. apply Z.ltb_irrefl.
  - intros a b c Ha Hb Hc. destruct (Hp a Ha) as [p Hpa].
    destruct (Hp b Hb) as [q Hqb]. destruct (Hp c Hc) as [r Hrc].
    rewrite (less_linked h a b p q), (less_linked h b c q r),
      (less_linked h a c p r) by done.
    repeat case_match; lia.
  - intros a b c Ha Hb Hc. destruct (Hp a Ha) as [p Hpa].
    destruct (Hp b Hb) as [q Hqb]. destruct (Hp c Hc) as [r Hrc].
    rewrite (less_linked h a b p q), (less_linked h b c q r),
      (less_linked h a c p r) by done.
    repeat case_match; lia.
Qed.

Lemma sort_slice_perm_le h l :
  linked h → Forall (λ a, a < length perms) l →
  StronglySorted perm_le (sort_slice (less h) l).
Proof.
  intros Hl Hall. destruct (sort_slice_sorts (less h) l) as [Hperm Hs].
  apply Sorted_StronglySorted; [apply _|].
  eapply Sorted_impl_elem; [apply Hs; by apply less_strict_weak|].
  intros a b Ha Hb Hab. simpl in Hab. rewrite Hperm in Ha, Hb.
  rewrite Forall_forall in Hall.
  destruct (lookup_lt_is_Some_2 perms a (Hall a Ha)) as [p Hp].
  destruct (lookup_lt_is_Some_2 perms b (Hall b Hb)) as [q Hq].
  rewrite (less_linked h b a q p) in Hab by done.
  exists p, q. split_and!; [done..|]. unfold key_le.
  repeat case_match; lia.
Qed.

(** [rec] comes back, on a linked table, from every non-empty slice whose
    nodes all hang below [path]. *)
Definition rec_ok
    (rec : list PermissionTree → list addr → option (list PermissionTree))
    (path : list addr) : Prop :=
  ∀ h nodes, linked h → nodes ≠ [] →
    (∀ c, c ∈ nodes → valid_path (c :: path)) →
    ∃ h', rec h nodes = Some h' ∧ linked h'.

Lemma linked_insert_sorted h a node :
  linked h → h !! a = Some node → a < length perms →
  linked (<[a := set_Children (sort_slice (less h) (Children node)) node]> h).
Proof.
  intros Hl Hn Ha. pose proof Hl as [Hlen Hall].
  split; [by rewrite length_insert|].
  intros i p Hi. destruct (Hall i p Hi) as (x & Hx & Hf & Hc & Hh & Hs).
  destruct (decide (a = i)) as [->|Hne].
  - assert (x = node) as -> by congruence.
    eexists. split; [apply list_lookup_insert_eq; by rewrite Hlen|].
    destruct (sort_slice_sorts (less h) (Children node)) as [Hperm _].
    split_and!; [exact Hf|simpl; by rewrite Hperm|exact Hh|].
    apply sort_slice_perm_le; [done|].
    apply Forall_forall. intros c Hcin. rewrite Hc in Hcin.
    by apply childOf_parent in Hcin as [_ ?].
  - exists x. by rewrite list_lookup_insert_ne.
Qed.

Lemma sortLoop_ok rec path nodes : ∀ h,
  linked h →
  (∀ a, a ∈ nodes → valid_path (a :: path) ∧ rec_ok rec (a :: path)) →
  ∃ h', sortLoop sort_slice rec nodes h = Some h' ∧ linked h'.
Proof.
  induction nodes as [|a nodes IH]; intros h Hl Hn; simpl; [eauto|].
  destruct (Hn a) as [[Hch Hlt] Hrec]; [by left|].
  assert (a < length perms) as Ha by by inversion Hlt.
  destruct (linked_lookup h a Hl Ha) as (p & node & Hp & Hnode).
  rewrite Hnode. destruct (Children node) as [|c cs] eqn:Hcs.
  { apply IH; [done|]. intros b Hb. apply Hn. by right. }
  rewrite <- Hcs.
  pose proof (linked_insert_sorted h a node Hl Hnode Ha) as Hl1.
  destruct (sort_slice_sorts (less h) (Children node)) as [Hperm _].
  destruct (Hrec _ (sort_slice (less h) (Children node)) Hl1) as (h2 & -> & Hl2).
  - intros Hnil. rewrite Hnil in Hperm. apply Permutation_nil in Hperm. congruence.
  - intros d Hd. rewrite Hperm in Hd.
    destruct Hl as [_ Hall]. destruct (Hall a p Hp) as (x & Hx & _ & Hc & _).
    assert (x = node) as -> by congruence. rewrite Hc in Hd.
    apply childOf_parent in Hd as [Hpar Hdlt].
    split; [by constructor|by constructor].
  - apply IH; [done|]. intros b Hb. apply Hn. by right.
Qed.

Lemma sortChildren_ok fuel : ∀ path,
  length perms ≤ fuel + length path →
  rec_ok (sortChildren sort_slice fuel) path.
Proof.
  induction fuel as [|fuel IH]; intros path Hfuel h nodes Hl Hne Hn.
  - destruct nodes as [|c nodes]; [done|].
    destruct (Hn c) as [Hch Hlt]; [by left|].
    pose proof (chain_length _ _ _ Hch Hlt) as Hlen. simpl in *. lia.
  - simpl. apply (sortLoop_ok _ path); [done|].
    intros a Ha. split; [by apply Hn|]. apply IH. simpl. lia.
Qed.

(** The recursion of [sortChildren] from the roots comes back within a
    depth of one more than the number of permissions, on a table that is
    still linked. *)
Lemma sortChildren_roots h roots :
  linked h → roots ≡ₚ omap (rootOf tm) perms →
  ∃ h', sortChildren sort_slice (S (length perms)) h roots = Some h' ∧ linked h'.
Proof.
  intros Hl Hr. simpl. apply (sortLoop_ok _ []); [done|].
  intros a Ha. rewrite Hr in Ha. apply rootOf_parent in Ha as [Hpar Hlt].
  split.
  - split; [by constructor|by repeat constructor].
  - apply sortChildren_ok. simpl. lia.
Qed.

Lemma linked_built_from h a p :
  linked h → perms !! a = Some p → node_at h p a.
Proof.
  intros [_ Hall] Hp. destruct (Hall a p Hp) as (n & Hn & Hf & _).
  by exists n.
Qed.

Lemma linked_node_at h a p :
  linked h → p ∈ perms → node_at h p a → perms !! a = Some p.
Proof.
  intros Hl Hp (n & Hn & Hf).
  destruct (linked_lookup h a Hl) as (p' & n' & Hp' & Hn').
  { rewrite <- (proj1 Hl). by eapply lookup_lt_Some. }
  assert (n' = n) as -> by congruence.
  destruct Hl as [_ Hall]. destruct (Hall a p' Hp') as (x & Hx & Hf' & _).
  assert (x = n) as -> by congruence.
  unfold built_from in Hf. rewrite Hf' in Hf.
  apply (f_equal Code) in Hf. simpl in Hf.
  apply list_elem_of_lookup in Hp as (i & Hi).
  by rewrite (tm_code_inj a i p' p Hp' Hi Hf).
Qed.

Lemma linked_node_at_inj h a a' p :
  linked h → p ∈ perms → node_at h p a → node_at h p a' → a = a'.
Proof.
  intros Hl Hp Ha Ha'.
  apply (linked_node_at h a p Hl Hp), tm_code in Ha.
  apply (linked_node_at h a' p Hl Hp), tm_code in Ha'.
  congruence.
Qed.

(** A child of a node of the forest is a node of the forest. *)
Lemma linked_nested_in_forest h roots p q a b :
  linked h → p ∈ perms → q ∈ perms →
  nested h p q → node_at h p a → node_at h q b →
  in_forest h roots b → in_forest h roots a.
Proof.
  intros Hl Hp Hq (a' & b' & nq & Ha' & Hb' & Hf & Hin & _) Ha Hb Hforest.
  assert (a' = a) as -> by exact (linked_node_at_inj h a' a p Hl Hp Ha' Ha).
  assert (node_at h q b') as Hb'' by by exists nq.
  assert (b' = b) as -> by exact (linked_node_at_inj h b' b q Hl Hq Hb'' Hb).
  by eapply in_forest_child.
Qed.

Lemma linked_nested h p q :
  linked h → p ∈ perms → q ∈ perms →
  Permission_ParentCode p ≠ "" →
  Permission_ParentCode p = Permission_Code q →
  nested h p q.
Proof.
  intros Hl Hp Hq Hne Hpq.
  apply list_elem_of_lookup in Hp as (i & Hi).
  apply list_elem_of_lookup in Hq as (j & Hj).
  pose proof Hl as [_ Hall].
  destruct (Hall j q Hj) as (nq & Hnq & Hf & Hc & Hh & _).
  assert (i ∈ omap (childOf tm j) perms) as Hin.
  { apply list_elem_of_omap. exists p. split; [by eapply list_elem_of_lookup_2|].
    unfold childOf. rewrite decide_False by done.
    rewrite Hpq, (tm_code j q Hj), decide_True by done. by apply tm_code. }
  exists i, j, nq. split_and!; [by apply linked_built_from|done|done|by rewrite Hc|].
  rewrite Hh. apply bool_decide_eq_true. intros Hnil. rewrite Hnil in Hin.
  by apply not_elem_of_nil in Hin.
Qed.



(** A permission whose parent code is neither empty nor a key of the map
    is appended to nothing. *)
Lemma linked_orphan h i p :
  linked h → perms !! i = Some p →
  Permission_ParentCode p ≠ "" →
  tm !! Permission_ParentCode p = None →
  (i ∉ omap (rootOf tm) perms) ∧
  (∀ b nb, h !! b = Some nb → i ∉ Children nb).
Proof.
  intros Hl Hi Hne Hnone. split.
  - intros Hin. apply list_elem_of_omap in Hin as (p' & Hp' & Hr).
    apply rootOf_Some in Hr as [Hi' He]; [|done]. congruence.
  - intros b nb Hb Hin.
    destruct (linked_lookup h b Hl) as (q & x & Hq & Hx).
    { rewrite <- (proj1 Hl). by eapply lookup_lt_Some. }
    destruct Hl as [_ Hall]. destruct (Hall b q Hq) as (y & Hy & _ & Hc & _).
    assert (y = nb) as -> by congruence. rewrite Hc in Hin.
    apply list_elem_of_omap in Hin as (p' & Hp' & Hch).
    apply childOf_Some in Hch as (Hi' & _ & Hpar); [|done]. congruence.
Qed.

(** The roots are the nodes of the permissions with an empty parent code. *)
Lemma linked_roots h roots p :
  linked h → roots ≡ₚ omap (rootOf tm) perms → p ∈ perms →
  Permission_ParentCode p = "" ↔ ∃ a, a ∈ roots ∧ node_at h p a.
Proof.
  intros Hl Hr Hp. split.
  - intros He. pose proof Hp as Hp'.
    apply list_elem_of_lookup in Hp' as (i & Hi). exists i.
    split; [|by apply linked_built_from].
    rewrite Hr. apply list_elem_of_omap. exists p. split; [done|].
    unfold rootOf. rewrite decide_True by done. by apply tm_code.
  - intros (a & Ha & Hn). rewrite Hr in Ha.
    apply list_elem_of_omap in Ha as (p' & Hp' & Hroot).
    apply rootOf_Some in Hroot as [Hi He]; [|done].
    pose proof (linked_node_at h a p Hl Hp Hn) as Hi'. congruence.
Qed.


End Linked.

(** ** [GetPermissionTrees] on a table with unique codes *)

Lemma GetAllPermissions_perm db : GetAllPermissions db ≡ₚ permissions db.
Proof. apply merge_sort_Permutation. Qed.

Lemma GetAllPermissions_sorted db : StronglySorted db_order (GetAllPermissions db).
Proof. apply StronglySorted_merge_sort; apply _. Qed.

(** The function returns, within a recursion depth of one more than the
    number of rows, a root slice and a node table that is linked. *)
Lemma GetPermissionTrees_linked sort_slice db :
  sorts sort_slice →
  NoDup (Permission_Code <$> permissions db) →
  ∃ roots h tm,
    GetPermissionTrees sort_slice (S (length (permissions db))) db = Some (roots, h) ∧
    (∀ i p, GetAllPermissions db !! i = Some p → tm !! Permission_Code p = Some i) ∧
    (∀ c, c ∉ Permission_Code <$> permissions db → tm !! c = None) ∧
    linked (GetAllPermissions db) tm h ∧
    roots ≡ₚ omap (rootOf tm) (GetAllPermissions db) ∧
    StronglySorted (perm_le (GetAllPermissions db)) roots.
Proof.
  intros Hsort Hnd. unfold GetPermissionTrees.
  pose proof (GetAllPermissions_perm db) as Hperm.
  pose proof (GetAllPermissions_sorted db) as Hsorted.
  rewrite <- (Permutation_length Hperm).
  assert (NoDup (Permission_Code <$> GetAllPermissions db)) as Hnd'.
  { by rewrite Hperm. }
  destruct (createNodes (GetAllPermissions db) [] ∅) as [heap0 tm] eqn:Hc.
  apply createNodes_spec in Hc as (-> & Hcode & Honly); [|done].
  simpl in Hcode. rewrite app_nil_l.
  destruct (linkNodes _ tm _ []) as [h1 roots] eqn:Hlk.
  apply linked_after_loops in Hlk as [Hl1 ->]; [|done|done].
  pose proof (sort_slice_sorts_perm sort_slice Hsort (less h1)
                (omap (rootOf tm) (GetAllPermissions db))) as Hrp.
  destruct (sortChildren_roots _ tm Hcode sort_slice Hsort h1 _ Hl1 Hrp)
    as (h2 & -> & Hl2).
  eexists _, h2, tm. split_and!; [done|done| |done|done|].
  - intros c Hc. rewrite Honly; [done|]. by rewrite Hperm.
  - eapply sort_slice_perm_le; [done|done|].
    apply Forall_forall. intros a Ha.
    by apply (rootOf_parent _ tm Hcode) in Ha as [_ ?].
Qed.

(** ** The permission tree: claims C1 and C2 *)

Example GetPermissionTrees_seed :
  GetPermissionTrees insertion_sort 6 db_seed =
    Some ([0; 1],
          [set_HasChildren true (set_Children [2; 3] (newNode (perm 1 "system" "" 1 0)));
           newNode (perm 15 "dashboard" "" 1 0);
           set_HasChildren true (set_Children [4] (newNode (perm 2 "system:user" "system" 1 1)));
           newNode (perm 3 "system:role" "system" 1 2);
           newNode (perm 5 "system:user:view" "system:user" 2 1)]).
Proof. vm_compute. reflexivity. Qed.




(** C2, as stated, fails: the second permission of [db_orphan] has a
    parent code that is not empty and is the code of no permission, and
    it is not among the returned roots. *)
Lemma GetPermissionTrees_orphan_is_no_root :
  ∃ roots heap,
    GetPermissionTrees insertion_sort 3 db_orphan = Some (roots, heap) ∧
    ∃ p, p ∈ permissions db_orphan ∧
         Permission_ParentCode p ≠ "" ∧
         (Permission_ParentCode p ∉ Permission_Code <$> permissions db_orphan) ∧
         ¬ ∃ a, a ∈ roots ∧ node_at heap p a.
Proof.
  eexists _, _. split; [vm_compute; reflexivity|].
  exists (perm 2 "ghost:child" "ghost" 1 1).
  split_and!; [by right; left|done| |].
  - decide_by_computation.
  - intros (a & Ha & n & Hn & Hb).
    apply list_elem_of_singleton in Ha as ->. simpl in Hn. injection Hn as <-.
    discriminate Hb.
Qed.

(** C2, amended: for every permission table with unique codes, a
    permission whose parent code is not empty and is the code of no
    permission is dropped from the returned forest: its node is in no root
    slice and in no [Children] slice, so it is not reachable from the
    returned roots. *)
Theorem GetPermissionTrees_orphan_dropped sort_slice db p :
  sorts sort_slice →
  NoDup (Permission_Code <$> permissions db) →
  p ∈ permissions db →
  Permission_ParentCode p ≠ "" →
  Permission_ParentCode p ∉ Permission_Code <$> permissions db →
  ∃ roots heap,
    GetPermissionTrees sort_slice (S (length (permissions db))) db = Some (roots, heap) ∧
    (∃ a, node_at heap p a) ∧
    (∀ a, node_at heap p a →
       (a ∉ roots) ∧
       (∀ b nb, heap !! b = Some nb → a ∉ Children nb) ∧
       ¬ in_forest heap roots a).
Proof.
  intros Hsort Hnd Hp Hne Hout.
  destruct (GetPermissionTrees_linked sort_slice db Hsort Hnd)
    as (roots & h & tm & Hrun & Hcode & Honly & Hl & Hroots & Hsorted).
  exists roots, h. split; [done|].
  rewrite <- (GetAllPermissions_perm db) in Hp.
  split.
  - apply list_elem_of_lookup in Hp as (i & Hi). exists i.
    by eapply linked_built_from.
  - intros a Ha.
    pose proof (linked_node_at _ tm Hcode h a p Hl Hp Ha) as Hi.
    destruct (linked_orphan _ tm Hcode h a p Hl Hi Hne (Honly _ Hout)) as [Hr Hc].
    assert (a ∉ roots) as Hr' by by rewrite Hroots.
    split_and!; [done|done|].
    intros Hin. destruct Hin as [a Hin|a b nb _ Hb Hin]; [done|].
    by apply (Hc b nb).
Qed.

(** C2 on [db_orphan], with Go's insertion sort. *)
Lemma GetPermissionTrees_orphan_dropped_witness :
  ∃ roots heap,
    GetPermissionTrees insertion_sort (S (length (permissions db_orphan))) db_orphan
      = Some (roots, heap) ∧
    (∃ a, node_at heap (perm 2 "ghost:child" "ghost" 1 1) a) ∧
    (∀ a, node_at heap (perm 2 "ghost:child" "ghost" 1 1) a →
       (a ∉ roots) ∧
       (∀ b nb, heap !! b = Some nb → a ∉ Children nb) ∧
       ¬ in_forest heap roots a).
Proof.
  apply (GetPermissionTrees_orphan_dropped insertion_sort db_orphan
           (perm 2 "ghost:child" "ghost" 1 1) insertion_sort_sorts).
  - decide_by_computation.
  - simpl. rewrite !elem_of_cons. by right; left.
  - discriminate.
  - decide_by_computation.
Defined.

(** ** Deleting a role: claim C3 *)

Lemma DeleteRole_frame id db :
  DeleteRole id db =
    (Build_DB (users db) (filter (λ r, Role_ID r ≠ id) (roles db))
       (permissions db) (role_permissions db), None).
Proof. reflexivity. Qed.

(** C3: [DeleteRole] on the administrator role of [db_admin_role] removes
    the role and leaves the permission, but the role's entry of
    [role_permissions] is still there; [RoleController.Delete] answers
    with success. *)
Theorem DeleteRole_leaves_role_permissions :
  DeleteRole 1 db_admin_role =
    (Build_DB [] [] [perm 1 "system" "" 1 0] [(1, 1)], None) ∧
  RoleController_Delete 1 db_admin_role =
    (Build_DB [] [] [perm 1 "system" "" 1 0] [(1, 1)], (StatusOK, Success None)).
Proof. split; vm_compute; reflexivity. Qed.

(** ** Paging: claim C4 *)

Lemma wrap_int_small z :
  (- 2 ^ 63 ≤ z < 2 ^ 63)%Z → wrap_int z = z.
Proof.
  intros Hz. unfold wrap_int.
  rewrite Z.mod_small by lia. lia.
Qed.

Lemma gorm_Offset_Limit_page {A} (offset limit : Z) (rows : list A) :
  (0 ≤ offset)%Z → (0 ≤ limit)%Z →
  gorm_Offset_Limit offset limit rows =
    take (Z.to_nat limit) (drop (Z.to_nat offset) rows).
Proof.
  intros Ho Hl. unfold gorm_Offset_Limit.
  destruct (Z.leb_spec 0 limit) as [_|]; [|lia].
  destruct (Z.ltb_spec 0 offset) as [|Hz]; [done|].
  by replace offset with 0%Z by lia.
Qed.

(** C4, as stated, fails: page 2^62 + 1 with pageSize 4 fits Go's [int],
    the product (page - 1) * pageSize wraps around to 0, and the first
    page comes back where the offset 2^64 would give no record. *)
Lemma GetUserList_offset_wraps :
  ∃ page pageSize : Z,
    is_int page ∧ is_int pageSize ∧ (1 ≤ page)%Z ∧ (0 ≤ pageSize)%Z ∧
    (GetUserList page pageSize db_one_user).1 = users db_one_user ∧
    take (Z.to_nat pageSize)
      (drop (Z.to_nat ((page - 1) * pageSize)) (users db_one_user)) = [].
Proof.
  exists (2 ^ 62 + 1)%Z, 4%Z. unfold is_int. split_and!; [lia..|reflexivity|].
  rewrite drop_ge; [apply take_nil|]. simpl length. lia.
Qed.

(** C4, amended: for every page >= 1 and pageSize >= 0 whose offset
    (page - 1) * pageSize fits Go's [int], [GetUserList] and [GetRoleList]
    return the records from that offset on, at most pageSize of them, and
    the number of records of the whole table. *)
Theorem GetUserList_GetRoleList_page page pageSize db :
  is_int page → is_int pageSize →
  (1 ≤ page)%Z → (0 ≤ pageSize)%Z →
  ((page - 1) * pageSize < 2 ^ 63)%Z →
  GetUserList page pageSize db =
    (take (Z.to_nat pageSize) (drop (Z.to_nat ((page - 1) * pageSize)) (users db)),
     Z.of_nat (length (users db))) ∧
  GetRoleList page pageSize db =
    (take (Z.to_nat pageSize) (drop (Z.to_nat ((page - 1) * pageSize)) (roles db)),
     Z.of_nat (length (roles db))) ∧
  (Z.of_nat (length (GetUserList page pageSize db).1) ≤ pageSize)%Z ∧
  (Z.of_nat (length (GetRoleList page pageSize db).1) ≤ pageSize)%Z.
Proof.
  unfold is_int. intros Hip His Hpage Hsize Hfit.
  assert (0 ≤ (page - 1) * pageSize)%Z as Hnn by nia.
  assert (wrap_int (wrap_int (page - 1) * pageSize) = ((page - 1) * pageSize)%Z) as Hoff.
  { rewrite (wrap_int_small (page - 1)) by lia. apply wrap_int_small. lia. }
  unfold GetUserList, GetRoleList. rewrite Hoff.
  rewrite !gorm_Offset_Limit_page by done.
  split_and!; [done|done|..]; simpl; rewrite length_take; lia.
Qed.

(** C4 for the second page of one: of the three users and two roles of
    the sample database it is the second user and the second role. *)
Lemma GetUserList_GetRoleList_page_witness :
  GetUserList 2 1 db_rbac =
    ([user_with_role 2 "guest" "$2a$10$guest123" (Some 2)], 3%Z) ∧
  GetRoleList 2 1 db_rbac =
    ([Build_Role 2 "普通用户" "user" "普通用户" 0 0 []], 2%Z) ∧
  (Z.of_nat (length (GetUserList 2 1 db_rbac).1) ≤ 1)%Z ∧
  (Z.of_nat (length (GetRoleList 2 1 db_rbac).1) ≤ 1)%Z.
Proof.
  apply (GetUserList_GetRoleList_page 2 1 db_rbac); unfold is_int; lia.
Defined.

(** ** The stand-in for bcrypt keeps to [BcryptSpec] *)

Lemma bcrypt_model_spec : BcryptSpec bcrypt_model.
Proof.
  split.
  - intros password salt hash [= <-]. by eexists.
  - intros password salt hash password' [= <-] Hinput. simpl.
    apply bool_decide_eq_true. by rewrite Hinput.
Qed.

(** ** Creating a user: claim C5 *)

Lemma GetUserByUsername_inr username db u :
  GetUserByUsername username db = inr u →
  u ∈ users db ∧ User_Username u = username.
Proof.
  unfold GetUserByUsername.
  destruct (list_find _ _) as [[i u']|] eqn:Hf; [|done].
  intros [= <-]. apply list_find_Some in Hf as (Hi & Hu & _).
  split; [by eapply list_elem_of_lookup_2|done].
Qed.

(** C5: when the users table holds a user with the username of the new
    user, [CreateUser] returns the error and the table, indeed the whole
    database, is as before; [UserController.Create] answers with that
    error and inserts nothing. *)
Theorem CreateUser_duplicate_rejected `{Bcrypt} salt now user db :
  (∃ u, u ∈ users db ∧ User_Username u = User_Username user) →
  CreateUser salt now user db = (db, user, Some ErrUsernameExists) ∧
  (∀ valid_email body req,
     bind_CreateUserRequest valid_email body = Some req →
     CreateUserRequest_Username req = User_Username user →
     UserController_Create valid_email salt now body db =
       (db, (StatusOK, Error "用户名已存在"))).
Proof.
  intros (u & Hu & Hname).
  assert (∀ user', User_Username user' = User_Username user →
            CreateUser salt now user' db = (db, user', Some ErrUsernameExists)) as Hdup.
  { intros user' Hn. unfold CreateUser. destruct (decide _) as [|Hcount]; [done|].
    exfalso. apply Hcount.
    assert (u ∈ filter (λ u, User_Username u = User_Username user') (users db)) as Hin.
    { apply list_elem_of_filter. split; [congruence|done]. }
    destruct (filter _ _); [by apply not_elem_of_nil in Hin|simpl; lia]. }
  split; [by apply Hdup|].
  intros valid_email body req Hbind Hreq. unfold UserController_Create.
  rewrite Hbind. by rewrite Hdup.
Qed.

(** C5 for a second user named admin. *)
Lemma CreateUser_duplicate_rejected_witness :
  CreateUser (H := bcrypt_model) "salt" 7 (user 0 "admin" "secret") db_admin =
    (db_admin, user 0 "admin" "secret", Some ErrUsernameExists) ∧
  (∀ valid_email body req,
     bind_CreateUserRequest valid_email body = Some req →
     CreateUserRequest_Username req = User_Username (user 0 "admin" "secret") →
     UserController_Create (H := bcrypt_model) valid_email "salt" 7 body db_admin =
       (db_admin, (StatusOK, Error "用户名已存在"))).
Proof.
  apply (CreateUser_duplicate_rejected (H := bcrypt_model) "salt" 7
           (user 0 "admin" "secret") db_admin).
  exists (user 1 "admin" "$2a$10$admin123"). split; [by left|reflexivity].
Defined.

(** ** Login: claim C6 *)





Example Login_admin :
  Login (H := bcrypt_model) (λ _ name, Some ("jwt." +:+ name))
    (Some (Build_LoginRequest "admin" "admin123")) db_admin =
    (200%Z, Success (Some (login_data "jwt.admin" (user 1 "admin" "$2a$10$admin123")))) ∧
  Login (H := bcrypt_model) (λ _ name, Some ("jwt." +:+ name))
    (Some (Build_LoginRequest "admin" "wrong")) db_admin = login_failed ∧
  Login (H := bcrypt_model) (λ _ name, Some ("jwt." +:+ name))
    (Some (Build_LoginRequest "nobody" "admin123")) db_admin = login_failed.
Proof. split_and!; vm_compute; reflexivity. Qed.

(** ** Deleting a permission: claim C7 *)

(** C7: [DeletePermission] either returns an error and the database as
    it was (the permission does not exist, or a statement or the commit
    failed), or returns no error, and then the permission existed, no
    statement failed, and the database differs from the old one exactly
    by the permission's row and its entries of [role_permissions] being
    gone; when the permission exists and nothing fails, it succeeds. *)
Theorem DeletePermission_atomic fails id db :
  match DeletePermission fails id db with
  | (db', Some _) => db' = db
  | (db', None) =>
      (∃ p, p ∈ permissions db ∧ Permission_ID p = id) ∧
      (∀ s, fails s = false) ∧
      db' = Build_DB (users db) (roles db)
              (filter (λ p, Permission_ID p ≠ id) (permissions db))
              (filter (λ rp, rp.2 ≠ id) (role_permissions db)) ∧
      (∀ p, p ∈ permissions db' → Permission_ID p ≠ id) ∧
      (∀ rp, rp ∈ role_permissions db' → rp.2 ≠ id)
  end ∧
  ((∃ p, p ∈ permissions db ∧ Permission_ID p = id) →
   (∀ s, fails s = false) →
   (DeletePermission fails id db).2 = None) ∧
  ((∀ p, p ∈ permissions db → Permission_ID p ≠ id) →
   ∃ err, DeletePermission fails id db = (db, Some err)).
Proof.
  unfold DeletePermission, tx_bind, tx_stmt, tx_First_Permission,
    tx_Clear_Roles, tx_Delete_Permission.
  destruct (list_find (λ p, Permission_ID p = id) (permissions db))
    as [[i p]|] eqn:Hfind.
  - apply list_find_Some in Hfind as (Hi & Hid & _). subst id.
    split_and!.
    + destruct (fails TxBegin) eqn:Hb; [done|].
      destruct (fails TxFirst) eqn:Hf; [done|].
      destruct (fails TxClear) eqn:Hc; [done|].
      destruct (fails TxDelete) eqn:Hd; [done|].
      destruct (fails TxCommit) eqn:Hm; [done|].
      split_and!.
      * exists p. split; [by eapply list_elem_of_lookup_2|done].
      * by intros [].
      * done.
      * intros q Hq. simpl in Hq. by apply list_elem_of_filter in Hq as [? _].
      * intros rp Hrp. simpl in Hrp. by apply list_elem_of_filter in Hrp as [? _].
    + intros _ Hno. by rewrite !Hno.
    + intros Hnone. exfalso. apply (Hnone p); [by eapply list_elem_of_lookup_2|done].
  - split_and!.
    + destruct (fails TxBegin); [done|]. by destruct (fails TxFirst).
    + intros (p & Hp & Hid) _. exfalso.
      eapply list_find_None in Hfind. rewrite Forall_forall in Hfind.
      by apply (Hfind p).
    + intros _. destruct (fails TxBegin); [by eexists|].
      destruct (fails TxFirst); by eexists.
Qed.

Example DeletePermission_admin_role :
  DeletePermission (λ _, false) 1 db_admin_role =
    (Build_DB [] [Build_Role 1 "超级管理员" "admin" "系统超级管理员" 0 0 []] [] [], None) ∧
  DeletePermission (λ s, match s with TxDelete => true | _ => false end) 1 db_admin_role =
    (db_admin_role, Some ErrDatabase) ∧
  DeletePermission (λ _, false) 2 db_admin_role =
    (db_admin_role, Some ErrRecordNotFound).
Proof. split_and!; vm_compute; reflexivity. Qed.

(** ** Updates: what [Updates(map)] does to the rows *)

Lemma update_User_row_inv now updates u u' :
  update_User_row now updates u = Some u' →
  User_ID u' = User_ID u ∧
  assign_string (updates !! "username") (User_Username u) = Some (User_Username u') ∧
  assign_string (updates !! "password") (User_Password u) = Some (User_Password u') ∧
  assign_string (updates !! "realname") (User_Realname u) = Some (User_Realname u') ∧
  assign_string (updates !! "email") (User_Email u) = Some (User_Email u').
Proof.
  unfold update_User_row. intros Hu.
  destruct (assign_string (updates !! "username") _); simpl in Hu; [|done].
  destruct (assign_string (updates !! "password") _); simpl in Hu; [|done].
  destruct (assign_string (updates !! "realname") _); simpl in Hu; [|done].
  destruct (assign_string (updates !! "email") _); simpl in Hu; [|done].
  destruct (assign_int _ _); simpl in Hu; [|done].
  by injection Hu as <-.
Qed.

Lemma update_Role_row_inv now updates r r' :
  update_Role_row now updates r = Some r' →
  Role_ID r' = Role_ID r ∧
  assign_string (updates !! "name") (Role_Name r) = Some (Role_Name r') ∧
  assign_string (updates !! "code") (Role_Code r) = Some (Role_Code r') ∧
  assign_string (updates !! "description") (Role_Description r)
    = Some (Role_Description r').
Proof.
  unfold update_Role_row. intros Hr.
  destruct (assign_string (updates !! "name") _); simpl in Hr; [|done].
  destruct (assign_string (updates !! "code") _); simpl in Hr; [|done].
  destruct (assign_string (updates !! "description") _); simpl in Hr; [|done].
  by injection Hr as <-.
Qed.

Lemma Forall2_same {A} (R : A → A → Prop) (l : list A) :
  (∀ x, R x x) → Forall2 R l l.
Proof. intros HR. induction l; by constructor. Qed.

Lemma gorm_Updates_User_rows now id updates db db' err :
  gorm_Updates_User now id updates db = (db', err) →
  match err with
  | Some _ => db' = db
  | None =>
      Forall2 (λ u u', if decide (User_ID u = id)
                       then update_User_row now updates u = Some u'
                       else u' = u)
        (users db) (users db')
  end.
Proof.
  unfold gorm_Updates_User. intros Hupd.
  destruct (bool_decide (dom updates ⊆ user_columns)); [|by injection Hupd as <- <-].
  destruct (mapM _ (users db)) as [us|] eqn:Hmap; [|by injection Hupd as <- <-].
  destruct (bool_decide (NoDup _)); [|by injection Hupd as <- <-].
  injection Hupd as <- <-. simpl.
  apply mapM_Some in Hmap. eapply Forall2_impl; [exact Hmap|].
  intros u u' Hu. simpl in Hu. destruct (decide (User_ID u = id)); [done|].
  congruence.
Qed.

Lemma gorm_Updates_Role_rows now id updates db db' err :
  gorm_Updates_Role now id updates db = (db', err) →
  match err with
  | Some _ => db' = db
  | None =>
      Forall2 (λ r r', if decide (Role_ID r = id)
                       then update_Role_row now updates r = Some r'
                       else r' = r)
        (roles db) (roles db')
  end.
Proof.
  unfold gorm_Updates_Role. intros Hupd.
  destruct (bool_decide (dom updates ⊆ role_columns)); [|by injection Hupd as <- <-].
  destruct (mapM _ (roles db)) as [rs|] eqn:Hmap; [|by injection Hupd as <- <-].
  destruct (bool_decide (NoDup _)); [|by injection Hupd as <- <-].
  injection Hupd as <- <-. simpl.
  apply mapM_Some in Hmap. eapply Forall2_impl; [exact Hmap|].
  intros r r' Hr. simpl in Hr. destruct (decide (Role_ID r = id)); [done|].
  congruence.
Qed.

(** ** Stored passwords: claim C8 *)




Example CreateUser_UpdateUser_store_hashes :
  CreateUser (H := bcrypt_model) "salt" 7 (user 0 "bob" "secret") db_admin =
    (set_users [user 1 "admin" "$2a$10$admin123";
                Build_User 2 "bob" "$2a$10$secret" "bob" "bob@example.com" 1 7 7 None None]
       db_admin,
     Build_User 2 "bob" "$2a$10$secret" "bob" "bob@example.com" 1 7 7 None None,
     None) ∧
  UpdateUser (H := bcrypt_model) "salt" 9 1 {[ "password" := VString "changed" ]} db_admin =
    (set_users [Build_User 1 "admin" "$2a$10$changed" "admin" "admin@example.com" 1 0 9
                  None None] db_admin,
     None).
Proof. split; vm_compute; reflexivity. Qed.

(** ** The JSON of a user: claim C9 *)

Lemma json_User_set_Password pw u : json_User (set_User_Password pw u) = json_User u.
Proof. reflexivity. Qed.

Lemma gorm_Offset_Limit_fmap {A B} (f : A → B) offset limit (rows : list A) :
  gorm_Offset_Limit offset limit (f <$> rows) = f <$> gorm_Offset_Limit offset limit rows.
Proof.
  unfold gorm_Offset_Limit.
  destruct (0 <? offset)%Z, (0 <=? limit)%Z;
    by rewrite ?fmap_take, ?fmap_drop.
Qed.

Lemma list_find_ID_set_Password id pw (us : list User) :
  list_find (λ u, User_ID u = id) (set_User_Password pw <$> us) =
    prod_map Datatypes.id (set_User_Password pw) <$> list_find (λ u, User_ID u = id) us.
Proof. by rewrite list_find_fmap. Qed.

Lemma count_Username_set_Password name pw (us : list User) :
  length (filter (λ u, User_Username u = name) (set_User_Password pw <$> us)) =
  length (filter (λ u, User_Username u = name) us).
Proof.
  induction us as [|u us IH]; [done|].
  rewrite fmap_cons, !filter_cons. simpl.
  destruct (decide (User_Username u = name)); simpl; by rewrite IH.
Qed.

(** C9: the JSON object of a user has no ["password"] entry and does not
    depend on the stored password; so the answers of [GetList] and
    [GetDetail] are the same on a database whose stored hashes are all
    erased, and the answer of [Create] is the same whatever hash bcrypt
    produced and whatever hashes are stored. *)
Theorem User_json_omits_password :
  (∀ u, "password" ∉ (User_fields u).*1) ∧
  (∀ u pw, json_User (set_User_Password pw u) = json_User u) ∧
  (∀ page pageSize db,
     UserController_GetList page pageSize (erase_passwords db) =
     UserController_GetList page pageSize db) ∧
  (∀ id db,
     UserController_GetDetail id (erase_passwords db) =
     UserController_GetDetail id db) ∧
  (∀ (B1 B2 : Bcrypt) valid_email salt1 salt2 now body req db,
     bind_CreateUserRequest valid_email body = Some req →
     is_Some (@bcrypt_GenerateFromPassword B1 (CreateUserRequest_Password req) salt1) →
     is_Some (@bcrypt_GenerateFromPassword B2 (CreateUserRequest_Password req) salt2) →
     (UserController_Create (H := B1) valid_email salt1 now body db).2 =
     (UserController_Create (H := B2) valid_email salt2 now body (erase_passwords db)).2).
Proof.
  split_and!.
  - intros u. unfold User_fields. destruct (User_Role u); simpl; decide_by_computation.
  - intros u pw. reflexivity.
  - intros page pageSize db.
    unfold UserController_GetList, GetUserList, erase_passwords. simpl.
    rewrite gorm_Offset_Limit_fmap, length_fmap, <- list_fmap_compose.
    do 5 f_equal.
  - intros id db. unfold UserController_GetDetail, GetUserByID, erase_passwords.
    simpl. rewrite list_find_ID_set_Password.
    by destruct (list_find _ (users db)) as [[i u]|].
  - intros B1 B2 valid_email salt1 salt2 now body req db Hbind [h1 Hg1] [h2 Hg2].
    unfold UserController_Create, CreateUser, erase_passwords. rewrite Hbind. simpl.
    assert (User_Username <$> (set_User_Password "" <$> users db)
              = User_Username <$> users db) as Hn.
    { by rewrite <- list_fmap_compose. }
    assert (User_ID <$> (set_User_Password "" <$> users db)
              = User_ID <$> users db) as Hi.
    { by rewrite <- list_fmap_compose. }
    rewrite count_Username_set_Password.
    destruct (decide _); [done|].
    rewrite Hg1, Hg2. unfold gorm_Create_User. simpl. rewrite Hn, Hi.
    destruct (bool_decide _); [done|]. by destruct (bool_decide _).
Qed.

Example UserController_GetDetail_admin :
  json_Response (UserController_GetDetail 1 db_admin).2 =
    JObj [("code", JNum 200); ("msg", JStr "success");
          ("data", JObj [("id", JNum 1); ("username", JStr "admin");
                         ("realname", JStr "admin");
                         ("email", JStr "admin@example.com");
                         ("status", JNum 1);
                         ("created_at", JTime 0); ("updated_at", JTime 0);
                         ("role_id", JNull)])].
Proof. vm_compute. reflexivity. Qed.

(** ** The update handlers: claim C10 *)

Lemma put_string_lookup key s updates k :
  put_string key s updates !! k =
    if decide (s ≠ "" ∧ key = k) then Some (VString s) else updates !! k.
Proof.
  unfold put_string. destruct (decide (s ≠ "")) as [Hs|Hs].
  - destruct (decide (key = k)) as [->|Hk].
    + rewrite lookup_insert_eq. by rewrite decide_True.
    + rewrite lookup_insert_ne by done. rewrite decide_False; [done|tauto].
  - rewrite decide_False; [done|tauto].
Qed.

Lemma assign_string_kept sent k old new (updates : gmap string value) :
  updates !! k = (if decide (sent ≠ "") then Some (VString sent) else None) →
  assign_string (updates !! k) old = Some new →
  field_kept sent old new.
Proof.
  intros ->. destruct (decide (sent ≠ "")) as [Hs|Hs]; simpl.
  - intros [= <-]. split; [done|]. intros ->. done.
  - intros [= <-]. split; [done|]. apply dec_stable in Hs. done.
Qed.

Lemma field_kept_refl sent old : field_kept sent old old.
Proof. by split. Qed.

Lemma user_updates_lookup req :
  user_updates req !! "username" =
    (if decide (UpdateUserRequest_Username req ≠ "")
     then Some (VString (UpdateUserRequest_Username req)) else None) ∧
  user_updates req !! "realname" =
    (if decide (UpdateUserRequest_Realname req ≠ "")
     then Some (VString (UpdateUserRequest_Realname req)) else None) ∧
  user_updates req !! "email" =
    (if decide (UpdateUserRequest_Email req ≠ "")
     then Some (VString (UpdateUserRequest_Email req)) else None) ∧
  user_updates req !! "password" = None.
Proof.
  unfold user_updates.
  split_and!; destruct (UpdateUserRequest_Status req);
    rewrite ?lookup_insert_ne by done;
    rewrite !put_string_lookup, lookup_empty;
    repeat case_decide; intuition congruence.
Qed.

Lemma role_updates_lookup req :
  role_updates req !! "name" =
    (if decide (UpdateRoleRequest_Name req ≠ "")
     then Some (VString (UpdateRoleRequest_Name req)) else None) ∧
  role_updates req !! "code" =
    (if decide (UpdateRoleRequest_Code req ≠ "")
     then Some (VString (UpdateRoleRequest_Code req)) else None) ∧
  role_updates req !! "description" =
    (if decide (UpdateRoleRequest_Description req ≠ "")
     then Some (VString (UpdateRoleRequest_Description req)) else None).
Proof.
  unfold role_updates.
  split_and!; rewrite !put_string_lookup, lookup_empty;
    repeat case_decide; intuition congruence.
Qed.

(** C10: whatever the update request, every user row keeps its id and
    its stored password, and each of username, realname and email keeps
    its stored value when the request sent the empty string for it (or
    left it out) and is empty afterwards only if it was empty before; the
    same holds for name, code and description of every role row. *)
Theorem Update_handlers_keep_empty_fields `{Bcrypt} salt now id :
  (∀ req db,
     Forall2 (λ u u',
                User_ID u' = User_ID u ∧
                User_Password u' = User_Password u ∧
                field_kept (UpdateUserRequest_Username req)
                  (User_Username u) (User_Username u') ∧
                field_kept (UpdateUserRequest_Realname req)
                  (User_Realname u) (User_Realname u') ∧
                field_kept (UpdateUserRequest_Email req)
                  (User_Email u) (User_Email u'))
       (users db)
       (users (UserController_Update salt now id (Some req) db).1)) ∧
  (∀ req db,
     Forall2 (λ r r',
                Role_ID r' = Role_ID r ∧
                field_kept (UpdateRoleRequest_Name req) (Role_Name r) (Role_Name r') ∧
                field_kept (UpdateRoleRequest_Code req) (Role_Code r) (Role_Code r') ∧
                field_kept (UpdateRoleRequest_Description req)
                  (Role_Description r) (Role_Description r'))
       (roles db)
       (roles (RoleController_Update now id (Some req) db).1)).
Proof.
  split.
  - intros req db. unfold UserController_Update, UpdateUser.
    destruct (user_updates_lookup req) as (Hu & Hr & He & Hp). rewrite Hp.
    destruct (gorm_Updates_User now id (user_updates req) db) as [db' [err|]] eqn:Hupd;
      apply gorm_Updates_User_rows in Hupd; simpl.
    + subst db'. apply Forall2_same. intros u.
      split_and!; [done|done|apply field_kept_refl..].
    + eapply Forall2_impl; [exact Hupd|]. intros u u' Hrow. simpl in Hrow.
      destruct (decide (User_ID u = id)); [|subst u'].
      * apply update_User_row_inv in Hrow as (Hid & Hun & Hpw & Hrn & Hem).
        rewrite Hp in Hpw. injection Hpw as Hpw.
        split_and!; [done|done|by eapply assign_string_kept..].
      * split_and!; [done|done|apply field_kept_refl..].
  - intros req db. unfold RoleController_Update, UpdateRole.
    destruct (role_updates_lookup req) as (Hn & Hc & Hd).
    destruct (gorm_Updates_Role now id (role_updates req) db) as [db' [err|]] eqn:Hupd;
      apply gorm_Updates_Role_rows in Hupd; simpl.
    + subst db'. apply Forall2_same. intros r.
      split_and!; [done|apply field_kept_refl..].
    + eapply Forall2_impl; [exact Hupd|]. intros r r' Hrow. simpl in Hrow.
      destruct (decide (Role_ID r = id)); [|subst r'].
      * apply update_Role_row_inv in Hrow as (Hid & Hna & Hco & Hde).
        split_and!; [done|by eapply assign_string_kept..].
      * split_and!; [done|apply field_kept_refl..].
Qed.

Example UserController_Update_admin :
  UserController_Update (H := bcrypt_model) "salt" 9 1
    (Some (Build_UpdateUserRequest "" "Administrator" "" None)) db_admin =
    (set_users [Build_User 1 "admin" "$2a$10$admin123" "Administrator"
                  "admin@example.com" 1 0 9 None None] db_admin,
     (StatusOK, Success None)).
Proof. vm_compute. reflexivity. Qed.

(** * More of the services and handlers *)

(** ** Rows, preloads and the errors of the role and permission services *)

(** A permission or role as a query without [Preload] returns it: the
    association field is [nil]. *)
Definition Permission_row (p : Permission) : Permission :=
  Build_Permission (Permission_ID p) (Permission_Name p) (Permission_Code p)
    (Permission_ParentCode p) (Permission_Path p) (Permission_Type p)
    (Permission_Sort p) (Permission_Description p) (Permission_CreatedAt p)
    (Permission_UpdatedAt p) [].

Definition Role_row (r : Role) : Role :=
  Build_Role (Role_ID r) (Role_Name r) (Role_Code r) (Role_Description r)
    (Role_CreatedAt r) (Role_UpdatedAt r) [].

(** [Preload("Permissions")]: the permissions the join table links to the
    role, in the order of the permissions table. *)
Definition preload_Permissions (db : DB) (r : Role) : Role :=
  Build_Role (Role_ID r) (Role_Name r) (Role_Code r) (Role_Description r)
    (Role_CreatedAt r) (Role_UpdatedAt r)
    (Permission_row <$>
       filter (λ p, (Role_ID r, Permission_ID p) ∈ role_permissions db)
         (permissions db)).

(** [Preload("Role.Permissions")] on a user: the role [RoleID] names, when
    there is one, with its permissions. *)
Definition preload_Role (db : DB) (u : User) : User :=
  Build_User (User_ID u) (User_Username u) (User_Password u) (User_Realname u)
    (User_Email u) (User_Status u) (User_CreatedAt u) (User_UpdatedAt u)
    (match User_RoleID u with
     | Some rid =>
         match list_find (λ r, Role_ID r = rid) (roles db) with
         | Some (_, r) => Some (preload_Permissions db r)
         | None => None
         end
     | None => None
     end)
    (User_RoleID u).

(** The errors [CreateRole], [CreatePermission] and [UpdatePermission]
    make themselves, beside the ones of the database. *)
Inductive service_error : Type :=
  | ErrRoleCodeExists                      (* errors.New("角色代码已存在") *)
  | ErrPermissionCodeExists (code : string) (* fmt.Errorf("permission with code '%s' already exists", code) *)
  | ErrGorm (err : error).

Definition service_error_message (e : service_error) : string :=
  match e with
  | ErrRoleCodeExists => "角色代码已存在"
  | ErrPermissionCodeExists code =>
      "permission with code '" +:+ code +:+ "' already exists"
  | ErrGorm err => error_message err
  end.

(** ** services/role_service.go, the rest *)

(** [GetRoleByID]: [Preload("Permissions").First(&role, id)]. *)
Definition GetRoleByID (id : nat) (db : DB) : error + Role :=
  match list_find (λ r, Role_ID r = id) (roles db) with
  | Some (_, r) => inr (preload_Permissions db r)
  | None => inl ErrRecordNotFound
  end.

(** [GetRoleByCode]. *)
Definition GetRoleByCode (code : string) (db : DB) : error + Role :=
  match list_find (λ r, Role_Code r = code) (roles db) with
  | Some (_, r) => inr (preload_Permissions db r)
  | None => inl ErrRecordNotFound
  end.

(** [DB.Create(role)], as [gorm_Create_User]: primary key and timestamps
    are assigned when zero, the unique index on [code] refuses a second
    row with the same code.  This is the statement for a role given
    without permissions, as [RoleController.Create] builds it. *)
Definition gorm_Create_Role (now : Z) (role : Role) (db : DB)
    : error + (DB * Role) :=
  if bool_decide (Role_Code role ∈ Role_Code <$> roles db) then
    inl ErrUniqueConstraint
  else
    let id := if decide (Role_ID role = 0) then next_id (Role_ID <$> roles db)
              else Role_ID role in
    if bool_decide (id ∈ Role_ID <$> roles db) then inl ErrUniqueConstraint
    else
      let created := if decide (Role_CreatedAt role = 0%Z) then now
                     else Role_CreatedAt role in
      let updated := if decide (Role_UpdatedAt role = 0%Z) then now
                     else Role_UpdatedAt role in
      let role' :=
        Build_Role id (Role_Name role) (Role_Code role) (Role_Description role)
          created updated (Role_Permissions role) in
      inr (set_roles (roles db ++ [Role_row role']) db, role').

(** [CreateRole]. *)
Definition CreateRole (now : Z) (role : Role) (db : DB)
    : DB * Role * option service_error :=
  let count := length (filter (λ r, Role_Code r = Role_Code role) (roles db)) in
  if decide (0 < count) then (db, role, Some ErrRoleCodeExists)
  else
    match gorm_Create_Role now role db with
    | inl err => (db, role, Some (ErrGorm err))
    | inr (db', role') => (db', role', None)
    end.

(** ** services/permission_service.go, the rest *)

(** [GetRolePermissions]. *)
Definition GetRolePermissions (roleID : nat) (db : DB) : error + list Permission :=
  match list_find (λ r, Role_ID r = roleID) (roles db) with
  | Some (_, r) => inr (Role_Permissions (preload_Permissions db r))
  | None => inl ErrRecordNotFound
  end.

(** The statements of [AssignPermissionsToRole], each of which the
    database may fail; they run outside any transaction. *)
Inductive assign_step : Type :=
  AssignFirst | AssignClear | AssignFind | AssignAppend.

(** [Association("Permissions").Append(permissions)] also writes the
    role's [updated_at]. *)
Definition touch_Role (now : Z) (id : nat) (r : Role) : Role :=
  if decide (Role_ID r = id) then
    Build_Role (Role_ID r) (Role_Name r) (Role_Code r) (Role_Description r)
      (Role_CreatedAt r) now (Role_Permissions r)
  else r.

(** [AssignPermissionsToRole]: look the role up, clear its rows of the
    join table, and, for a non-empty list of ids, find the permissions
    with these ids and append a row for each. *)
Definition AssignPermissionsToRole (fails : assign_step → bool) (now : Z)
    (roleID : nat) (permissionIDs : list nat) (db : DB) : DB * option error :=
  if fails AssignFirst then (db, Some ErrDatabase)
  else
    match list_find (λ r, Role_ID r = roleID) (roles db) with
    | None => (db, Some ErrRecordNotFound)
    | Some (_, role) =>
        if fails AssignClear then (db, Some ErrDatabase)
        else
          let db1 :=
            set_role_permissions
              (filter (λ rp, rp.1 ≠ Role_ID role) (role_permissions db)) db in
          if decide (0 < length permissionIDs) then
            if fails AssignFind then (db1, Some ErrDatabase)
            else
              let found :=
                filter (λ p, Permission_ID p ∈ permissionIDs) (permissions db1) in
              if fails AssignAppend then (db1, Some ErrDatabase)
              else
                (set_roles (touch_Role now (Role_ID role) <$> roles db1)
                   (set_role_permissions
                      (role_permissions db1 ++
                         ((λ p, (Role_ID role, Permission_ID p)) <$> found))
                      db1),
                 None)
          else (db1, None)
    end.

(** The loop of [CheckPermission] over the role's permissions. *)
Fixpoint has_code (permissionCode : string) (perms : list Permission) : bool :=
  match perms with
  | [] => false
  | perm :: rest =>
      if decide (Permission_Code perm = permissionCode) then true
      else has_code permissionCode rest
  end.

(** [CheckPermission]. *)
Definition CheckPermission (userID : nat) (permissionCode : string) (db : DB) : bool :=
  match list_find (λ u, User_ID u = userID) (users db) with
  | None => false
  | Some (_, u) =>
      match User_Role (preload_Role db u) with
      | None => false
      | Some role => has_code permissionCode (Role_Permissions role)
      end
  end.

(** [GetUserPermissions]; a [nil] slice is the empty list. *)
Definition GetUserPermissions (userID : nat) (db : DB) : list string :=
  match list_find (λ u, User_ID u = userID) (users db) with
  | None => []
  | Some (_, u) =>
      match User_Role (preload_Role db u) with
      | None => []
      | Some role => Permission_Code <$> Role_Permissions role
      end
  end.

(** [GetPermissionByID] and [GetPermissionByCode]. *)
Definition GetPermissionByID (id : nat) (db : DB) : error + Permission :=
  match list_find (λ p, Permission_ID p = id) (permissions db) with
  | Some (_, p) => inr (Permission_row p)
  | None => inl ErrRecordNotFound
  end.

Definition GetPermissionByCode (code : string) (db : DB) : error + Permission :=
  match list_find (λ p, Permission_Code p = code) (permissions db) with
  | Some (_, p) => inr (Permission_row p)
  | None => inl ErrRecordNotFound
  end.

(** [DB.Create(permission)]: primary key and timestamps are assigned when
    zero, a zero [Type] takes the column's default ([gorm:"default:1"]),
    and the unique index on [code] refuses a second row with the same
    code.  This is the statement for a permission given without roles
    ([Permission_Roles permission = []]), which the properties assume. *)
Definition gorm_Create_Permission (now : Z) (permission : Permission) (db : DB)
    : error + (DB * Permission) :=
  if bool_decide (Permission_Code permission ∈ Permission_Code <$> permissions db) then
    inl ErrUniqueConstraint
  else
    let id := if decide (Permission_ID permission = 0)
              then next_id (Permission_ID <$> permissions db)
              else Permission_ID permission in
    if bool_decide (id ∈ Permission_ID <$> permissions db) then inl ErrUniqueConstraint
    else
      let created := if decide (Permission_CreatedAt permission = 0%Z) then now
                     else Permission_CreatedAt permission in
      let updated := if decide (Permission_UpdatedAt permission = 0%Z) then now
                     else Permission_UpdatedAt permission in
      let type := if decide (Permission_Type permission = 0%Z) then 1%Z
                  else Permission_Type permission in
      let permission' :=
        Build_Permission id (Permission_Name permission) (Permission_Code permission)
          (Permission_ParentCode permission) (Permission_Path permission) type
          (Permission_Sort permission) (Permission_Description permission)
          created updated (Permission_Roles permission) in
      inr (set_permissions (permissions db ++ [Permission_row permission']) db,
           permission').

(** [CreatePermission]. *)
Definition CreatePermission (now : Z) (permission : Permission) (db : DB)
    : DB * Permission * option service_error :=
  match list_find (λ p, Permission_Code p = Permission_Code permission) (permissions db) with
  | Some _ =>
      (db, permission, Some (ErrPermissionCodeExists (Permission_Code permission)))
  | None =>
      match gorm_Create_Permission now permission db with
      | inl err => (db, permission, Some (ErrGorm err))
      | inr (db', permission') => (db', permission', None)
      end
  end.

(** [DB.Save(permission)] for a permission given without roles whose
    primary key is not zero and is that of a stored row: every column of
    the row is written from the record, and [updated_at] is [now]. *)
Definition gorm_Save_Permission (now : Z) (permission : Permission) (db : DB) : DB :=
  let saved :=
    Build_Permission (Permission_ID permission) (Permission_Name permission)
      (Permission_Code permission) (Permission_ParentCode permission)
      (Permission_Path permission) (Permission_Type permission)
      (Permission_Sort permission) (Permission_Description permission)
      (Permission_CreatedAt permission) now [] in
  set_permissions
    ((λ p, if decide (Permission_ID p = Permission_ID permission) then saved else p)
       <$> permissions db)
    db.

(** [UpdatePermission]: the record must exist; a code that differs from
    the stored one must not be the code of a permission with another id. *)
Definition UpdatePermission (now : Z) (permission : Permission) (db : DB)
    : DB * option service_error :=
  match list_find (λ p, Permission_ID p = Permission_ID permission) (permissions db) with
  | None => (db, Some (ErrGorm ErrRecordNotFound))
  | Some (_, existingPerm) =>
      if decide (Permission_Code permission ≠ Permission_Code existingPerm) then
        match list_find (λ p, Permission_Code p = Permission_Code permission ∧
                              Permission_ID p ≠ Permission_ID permission)
                (permissions db) with
        | Some _ =>
            (db, Some (ErrPermissionCodeExists (Permission_Code permission)))
        | None => (gorm_Save_Permission now permission db, None)
        end
      else (gorm_Save_Permission now permission db, None)
  end.

(** [RolePermissionData]; the node table the tree pointers refer to is
    returned beside it. *)
Record RolePermissionData : Type := Build_RolePermissionData {
  RoleID : nat;
  PermissionTrees : list addr }.

(** The body of the closure [markSelected] of [GetPermissionTreesWithRole],
    with the recursive call as a parameter.  The branch taken for a node
    whose id is in [rolePermCodes] is empty in the source. *)
Fixpoint markLoop (rec : list addr → option unit) (rolePermCodes : gset nat)
    (heap : list PermissionTree) (nodes : list addr) : option unit :=
  match nodes with
  | [] => Some ()
  | n :: rest =>
      match heap !! n with
      | None => None
      | Some node =>
          let _ := bool_decide (ID node ∈ rolePermCodes) in
          match Children node with
          | [] => markLoop rec rolePermCodes heap rest
          | _ :: _ =>
              match rec (Children node) with
              | None => None
              | Some _ => markLoop rec rolePermCodes heap rest
              end
          end
      end
  end.

(** [markSelected], with [fuel] for the depth of its recursion as in
    [sortChildren]. *)
Fixpoint markSelected (fuel : nat) (rolePermCodes : gset nat)
    (heap : list PermissionTree) (nodes : list addr) : option unit :=
  match fuel with
  | O => None
  | S fuel' =>
      markLoop (markSelected fuel' rolePermCodes heap) rolePermCodes heap nodes
  end.

(** [GetPermissionTreesWithRole]. *)
Definition GetPermissionTreesWithRole
    (sort_slice : (addr → addr → bool) → list addr → list addr)
    (fuel : nat) (roleID : nat) (db : DB)
    : option (error + RolePermissionData * list PermissionTree) :=
  match GetPermissionTrees sort_slice fuel db with
  | None => None
  | Some (trees, heap) =>
      match GetRolePermissions roleID db with
      | inl err => Some (inl err)
      | inr rolePerms =>
          let rolePermCodes : gset nat :=
            list_to_set (Permission_ID <$> rolePerms) in
          match markSelected fuel rolePermCodes heap trees with
          | None => None
          | Some _ =>
              Some (inr ({| RoleID := roleID; PermissionTrees := trees |}, heap))
          end
      end
  end.

(** ** api: [UserController.Delete] *)

Definition UserController_Delete (id : nat) (db : DB) : DB * (Z * Response) :=
  match DeleteUser id db with
  | (db', Some _) => (db', (StatusOK, Error "删除用户失败"))
  | (db', None) => (db', (StatusOK, Success None))
  end.

(** ** The vocabulary of the further properties *)

(** The permissions whose chain of parent codes ends at a permission with
    an empty parent code. *)
Inductive rooted (tbl : list Permission) : Permission → Prop :=
  | rooted_root p :
      p ∈ tbl → Permission_ParentCode p = "" → rooted tbl p
  | rooted_child p q :
      p ∈ tbl → Permission_ParentCode p ≠ "" →
      Permission_ParentCode p = Permission_Code q →
      rooted tbl q → rooted tbl p.

(** The permissions below [q]: its children by parent code, their
    children, and so on. *)
Inductive below (tbl : list Permission) (q : Permission) : Permission → Prop :=
  | below_child p :
      p ∈ tbl → Permission_ParentCode p ≠ "" →
      Permission_ParentCode p = Permission_Code q → below tbl q p
  | below_step p r :
      p ∈ tbl → Permission_ParentCode p ≠ "" →
      Permission_ParentCode p = Permission_Code r →
      below tbl q r → r ∈ tbl → below tbl q p.

(** What the unique index and the primary key of the permissions table
    promise. *)
Definition permissions_unique (db : DB) : Prop :=
  NoDup (Permission_Code <$> permissions db) ∧
  NoDup (Permission_ID <$> permissions db).

(** The pages 1 to [k] of [GetUserList], one after the other. *)
Definition user_pages (k : nat) (pageSize : Z) (db : DB) : list User :=
  mjoin ((λ i, (GetUserList (Z.of_nat (S i)) pageSize db).1) <$> seq 0 k).

(** * Further properties *)

(** ** Which permissions are in the returned forest *)

Lemma rooted_elem tbl p : rooted tbl p → p ∈ tbl.
Proof. by destruct 1. Qed.

Lemma rooted_same_elements tbl tbl' p :
  (∀ x, x ∈ tbl → x ∈ tbl') → rooted tbl p → rooted tbl' p.
Proof.
  intros Hsub. induction 1 as [p Hp He|p q Hp Hne Hpq _ IH].
  - apply rooted_root; auto.
  - eapply rooted_child; eauto.
Qed.

Section Forest.
Variable perms : list Permission.
Variable tm : gmap string addr.
Hypothesis tm_code :
  ∀ i p, perms !! i = Some p → tm !! Permission_Code p = Some i.
Hypothesis tm_only :
  ∀ c, c ∉ Permission_Code <$> perms → tm !! c = None.

Lemma tm_lookup_code c a :
  tm !! c = Some a → ∃ p, perms !! a = Some p ∧ Permission_Code p = c.
Proof.
  intros Hc. destruct (decide (c ∈ Permission_Code <$> perms)) as [Hin|Hout].
  - apply list_elem_of_fmap in Hin as (p & -> & Hp).
    apply list_elem_of_lookup in Hp as (i & Hi).
    rewrite (tm_code i p Hi) in Hc. injection Hc as <-. eauto.
  - rewrite (tm_only c Hout) in Hc. done.
Qed.

Lemma linked_forest_rooted h roots a :
  linked perms tm h → roots ≡ₚ omap (rootOf tm) perms →
  in_forest h roots a → ∀ p, p ∈ perms → node_at h p a → rooted perms p.
Proof.
  intros Hl Hr. induction 1 as [a Ha|a b nb Hb IH Hnb Ha]; intros p Hp Hn.
  - rewrite Hr in Ha. apply list_elem_of_omap in Ha as (p' & Hp' & Hroot).
    apply (rootOf_Some perms tm tm_code) in Hroot as [Hi He]; [|done].
    pose proof (linked_node_at perms tm tm_code h a p Hl Hp Hn) as Hi'.
    assert (p' = p) as -> by congruence. by apply rooted_root.
  - destruct (linked_lookup perms tm h b Hl) as (q & x & Hq & Hx).
    { rewrite <- (proj1 Hl). by eapply lookup_lt_Some. }
    pose proof Hl as [_ Hall].
    destruct (Hall b q Hq) as (y & Hy & _ & Hc & _).
    assert (y = nb) as -> by congruence. rewrite Hc in Ha.
    apply list_elem_of_omap in Ha as (p' & Hp' & Hch).
    apply (childOf_Some perms tm tm_code) in Hch as (Hi & Hne & Hpar); [|done].
    pose proof (linked_node_at perms tm tm_code h a p Hl Hp Hn) as Hi'.
    assert (p' = p) as -> by congruence.
    apply tm_lookup_code in Hpar as (q' & Hq' & Hcode).
    assert (q' = q) as -> by congruence.
    apply (rooted_child perms p q); [done|done|done|].
    apply IH; [by eapply list_elem_of_lookup_2|].
    by apply (linked_built_from perms tm).
Qed.

Lemma linked_rooted_forest h roots p :
  linked perms tm h → roots ≡ₚ omap (rootOf tm) perms →
  rooted perms p → ∀ a, node_at h p a → in_forest h roots a.
Proof.
  intros Hl Hr. induction 1 as [p Hp He|p q Hp Hne Hpq Hq IH]; intros a Hn.
  - apply (linked_roots perms tm tm_code h roots p Hl Hr Hp) in He
      as (a' & Ha' & Hn').
    rewrite (linked_node_at_inj perms tm tm_code h a a' p Hl Hp Hn Hn').
    by apply in_forest_root.
  - pose proof (rooted_elem _ _ Hq) as Hqin.
    pose proof Hqin as Hqin'.
    apply list_elem_of_lookup in Hqin' as (b & Hb).
    pose proof (linked_built_from perms tm h b q Hl Hb) as Hnb.
    eapply (linked_nested_in_forest perms tm tm_code h roots p q a b);
      [done|done|done| |done|done|by apply IH].
    by apply (linked_nested perms tm tm_code).
Qed.

(** On a linked table, the recursion of [markSelected] comes back like
    that of [sortChildren]. *)
Definition mark_ok (rec : list addr → option unit) (path : list addr) : Prop :=
  ∀ nodes, nodes ≠ [] →
    (∀ c, c ∈ nodes → valid_path perms tm (c :: path)) →
    rec nodes = Some ().

Lemma markLoop_ok rec sel h path nodes :
  linked perms tm h →
  (∀ a, a ∈ nodes → valid_path perms tm (a :: path) ∧ mark_ok rec (a :: path)) →
  markLoop rec sel h nodes = Some ().
Proof.
  intros Hl. induction nodes as [|a nodes IH]; intros Hn; simpl; [done|].
  destruct (Hn a) as [[Hch Hlt] Hrec]; [by left|].
  assert (a < length perms) as Ha by by inversion Hlt.
  destruct (linked_lookup perms tm h a Hl Ha) as (p & node & Hp & Hnode).
  rewrite Hnode.
  assert (markLoop rec sel h nodes = Some ()) as Hrest.
  { apply IH. intros b Hb. apply Hn. by right. }
  destruct (Children node) as [|c cs] eqn:Hcs; [done|].
  rewrite Hrec; [done|done|].
  intros d Hd. rewrite <- Hcs in Hd.
  destruct Hl as [_ Hall]. destruct (Hall a p Hp) as (x & Hx & _ & Hc & _).
  assert (x = node) as -> by congruence. rewrite Hc in Hd.
  apply (childOf_parent perms tm tm_code) in Hd as [Hpar Hdlt].
  split; [by constructor|by constructor].
Qed.

Lemma markSelected_ok fuel sel h : ∀ path,
  linked perms tm h →
  length perms ≤ fuel + length path →
  mark_ok (markSelected fuel sel h) path.
Proof.
  induction fuel as [|fuel IH]; intros path Hl Hfuel nodes Hne Hn.
  - destruct nodes as [|c nodes]; [done|].
    destruct (Hn c) as [Hch Hlt]; [by left|].
    pose proof (chain_length _ _ _ Hch Hlt) as Hlen. simpl in *. lia.
  - simpl. apply (markLoop_ok _ _ _ path); [done|].
    intros a Ha. split; [by apply Hn|]. apply IH; [done|]. simpl. lia.
Qed.

Lemma markSelected_roots sel h roots :
  linked perms tm h → roots ≡ₚ omap (rootOf tm) perms →
  markSelected (S (length perms)) sel h roots = Some ().
Proof.
  intros Hl Hr. simpl. apply (markLoop_ok _ _ _ []); [done|].
  intros a Ha. rewrite Hr in Ha.
  apply (rootOf_parent perms tm tm_code) in Ha as [Hpar Hlt].
  split.
  - split; [by constructor|by repeat constructor].
  - apply markSelected_ok; [done|]. simpl. lia.
Qed.

End Forest.

(** X1: for a permission table with unique codes, a permission is a node
    of the forest [GetPermissionTrees] returns exactly when its chain of
    parent codes ends at a permission with an empty parent code; every
    permission has a node in the node table. *)
Theorem GetPermissionTrees_forest_is_rooted sort_slice db :
  sorts sort_slice →
  NoDup (Permission_Code <$> permissions db) →
  ∃ roots heap,
    GetPermissionTrees sort_slice (S (length (permissions db))) db = Some (roots, heap) ∧
    (∀ p, p ∈ permissions db → ∃ a, node_at heap p a) ∧
    (∀ p a, p ∈ permissions db → node_at heap p a →
       (in_forest heap roots a ↔ rooted (permissions db) p)).
Proof.
  intros Hsort Hnd.
  destruct (GetPermissionTrees_linked sort_slice db Hsort Hnd)
    as (roots & h & tm & Hrun & Hcode & Honly & Hl & Hroots & _).
  pose proof (GetAllPermissions_perm db) as Hperm.
  assert (∀ c, c ∉ Permission_Code <$> GetAllPermissions db → tm !! c = None) as Honly'.
  { intros c Hc. apply Honly. by rewrite <- Hperm. }
  exists roots, h. split_and!; [done| |].
  - intros p Hp. rewrite <- Hperm in Hp.
    apply list_elem_of_lookup in Hp as (i & Hi). exists i.
    by eapply linked_built_from.
  - intros p a Hp Hn. rewrite <- Hperm in Hp. split.
    + intros Hin. eapply rooted_same_elements; [|by eapply linked_forest_rooted].
      intros x. by rewrite Hperm.
    + intros Hrooted. eapply linked_rooted_forest; [done|done|done| |done].
      eapply rooted_same_elements; [|done]. intros x. by rewrite Hperm.
Qed.

(** X1 on the seeded table. *)
Lemma GetPermissionTrees_forest_is_rooted_witness :
  ∃ roots heap,
    GetPermissionTrees insertion_sort (S (length (permissions db_seed))) db_seed
      = Some (roots, heap) ∧
    (∀ p, p ∈ permissions db_seed → ∃ a, node_at heap p a) ∧
    (∀ p a, p ∈ permissions db_seed → node_at heap p a →
       (in_forest heap roots a ↔ rooted (permissions db_seed) p)).
Proof.
  apply (GetPermissionTrees_forest_is_rooted insertion_sort db_seed insertion_sort_sorts).
  decide_by_computation.
Defined.

(** ** Deleting a permission and the tree *)

Lemma NoDup_fmap_filter {A B} (f : A → B) (P : A → Prop) `{∀ x, Decision (P x)}
    (l : list A) :
  NoDup (f <$> l) → NoDup (f <$> filter P l).
Proof.
  induction l as [|x l IH]; [done|].
  rewrite fmap_cons, NoDup_cons. intros [Hx Hl].
  rewrite filter_cons. destruct (decide (P x)); [|by apply IH].
  rewrite fmap_cons. apply NoDup_cons. split; [|by apply IH].
  intros Hin. apply Hx. apply list_elem_of_fmap in Hin as (y & -> & Hy).
  apply list_elem_of_filter in Hy as [_ Hy]. by apply list_elem_of_fmap_2.
Qed.

Lemma below_not_rooted tbl tbl' q p :
  NoDup (Permission_Code <$> tbl) →
  (∀ x, x ∈ tbl' → x ∈ tbl) → q ∈ tbl → q ∉ tbl' →
  below tbl q p → ¬ rooted tbl' p.
Proof.
  intros Hnd Hsub Hq Hq'.
  induction 1 as [p Hp Hne Hpq|p r Hp Hne Hpr _ IH Hr]; intros Hrooted.
  - destruct Hrooted as [p _ He|p q' _ _ Hpq' Hq'r]; [done|].
    pose proof (rooted_elem _ _ Hq'r) as Hq'in.
    assert (q' = q) as ->.
    { apply (NoDup_fmap_elem_inj Permission_Code tbl); [done|by apply Hsub|done|congruence]. }
    done.
  - destruct Hrooted as [p _ He|p q' _ _ Hpq' Hq'r]; [done|].
    pose proof (rooted_elem _ _ Hq'r) as Hq'in.
    assert (q' = r) as ->.
    { apply (NoDup_fmap_elem_inj Permission_Code tbl); [done|by apply Hsub|done|congruence]. }
    by apply IH.
Qed.

Lemma DeletePermission_success fails id db db' :
  DeletePermission fails id db = (db', None) →
  db' = Build_DB (users db) (roles db)
          (filter (λ p, Permission_ID p ≠ id) (permissions db))
          (filter (λ rp, rp.2 ≠ id) (role_permissions db)).
Proof.
  unfold DeletePermission, tx_bind, tx_stmt, tx_First_Permission,
    tx_Clear_Roles, tx_Delete_Permission.
  destruct (fails TxBegin); [done|]. destruct (fails TxFirst); [done|].
  destruct (list_find _ _) as [[i p]|] eqn:Hfind; [|done].
  apply list_find_Some in Hfind as (_ & <- & _).
  destruct (fails TxClear); [done|]. destruct (fails TxDelete); [done|].
  destruct (fails TxCommit); [done|]. by intros [= <-].
Qed.

(** X2: after [DeletePermission] has deleted a permission of a table
    with unique codes, no permission below the deleted one is a node of
    the forest [GetPermissionTrees] returns, although its row is still in
    the table. *)
Theorem DeletePermission_drops_subtree sort_slice fails db db' q :
  sorts sort_slice →
  NoDup (Permission_Code <$> permissions db) →
  q ∈ permissions db →
  DeletePermission fails (Permission_ID q) db = (db', None) →
  ∃ roots heap,
    GetPermissionTrees sort_slice (S (length (permissions db'))) db' = Some (roots, heap) ∧
    (∀ p a, below (permissions db) q p → node_at heap p a →
       ¬ in_forest heap roots a) ∧
    (∀ p, p ∈ permissions db → Permission_ID p ≠ Permission_ID q →
       p ∈ permissions db').
Proof.
  intros Hsort Hnd Hq Hdel. apply DeletePermission_success in Hdel. subst db'.
  set (db' := Build_DB _ _ _ _).
  assert (∀ x, x ∈ permissions db' → x ∈ permissions db) as Hsub.
  { intros x Hx. simpl in Hx. by apply list_elem_of_filter in Hx as [_ ?]. }
  assert (NoDup (Permission_Code <$> permissions db')) as Hnd'.
  { simpl. by apply NoDup_fmap_filter. }
  assert (q ∉ permissions db') as Hq'.
  { simpl. intros Hin. by apply list_elem_of_filter in Hin as [? _]. }
  destruct (GetPermissionTrees_linked sort_slice db' Hsort Hnd')
    as (roots & h & tm & Hrun & Hcode & Honly & Hl & Hroots & _).
  pose proof (GetAllPermissions_perm db') as Hperm.
  assert (∀ c, c ∉ Permission_Code <$> GetAllPermissions db' → tm !! c = None) as Honly'.
  { intros c Hc. apply Honly. by rewrite <- Hperm. }
  exists roots, h. split_and!; [done| |].
  - intros p a Hbelow (n & Hn & Hb) Hin.
    destruct (linked_lookup _ tm h a Hl) as (p' & n' & Hp' & Hn').
    { rewrite <- (proj1 Hl). by eapply lookup_lt_Some. }
    assert (n' = n) as -> by congruence.
    pose proof Hl as [_ Hall].
    destruct (Hall a p' Hp') as (x & Hx & Hf & _).
    assert (x = n) as -> by congruence.
    assert (p' ∈ permissions db') as Hp'in.
    { rewrite <- Hperm. by eapply list_elem_of_lookup_2. }
    assert (p ∈ permissions db) as Hpin by by destruct Hbelow.
    assert (p' = p) as ->.
    { apply (NoDup_fmap_elem_inj Permission_Code (permissions db));
        [done|by apply Hsub|done|].
      unfold built_from in Hb. rewrite Hf in Hb.
      by apply (f_equal Code) in Hb. }
    apply (below_not_rooted (permissions db) (permissions db') q p);
      [done|done|done|done|done|].
    eapply rooted_same_elements; [|eapply (linked_forest_rooted _ tm Hcode Honly')].
    + intros x. by rewrite Hperm.
    + done.
    + done.
    + done.
    + by rewrite Hperm.
    + by exists n.
  - intros p Hp Hid. simpl. apply list_elem_of_filter. done.
Qed.

(** X2 for the deletion of "system:user", which has one permission below. *)
Lemma DeletePermission_drops_subtree_witness :
  ∃ roots heap,
    GetPermissionTrees insertion_sort
      (S (length (permissions
           (Build_DB [] [] (filter (λ p, Permission_ID p ≠ 2) (permissions db_seed)) []))))
      (Build_DB [] [] (filter (λ p, Permission_ID p ≠ 2) (permissions db_seed)) [])
      = Some (roots, heap) ∧
    (∀ p a, below (permissions db_seed) (perm 2 "system:user" "system" 1 1) p →
       node_at heap p a → ¬ in_forest heap roots a) ∧
    (∀ p, p ∈ permissions db_seed →
       Permission_ID p ≠ Permission_ID (perm 2 "system:user" "system" 1 1) →
       p ∈ permissions
             (Build_DB [] [] (filter (λ p, Permission_ID p ≠ 2) (permissions db_seed)) [])).
Proof.
  apply (DeletePermission_drops_subtree insertion_sort (λ _, false) db_seed
           (Build_DB [] [] (filter (λ p, Permission_ID p ≠ 2) (permissions db_seed)) [])
           (perm 2 "system:user" "system" 1 1) insertion_sort_sorts).
  - decide_by_computation.
  - simpl. rewrite !elem_of_cons. by right; left.
  - reflexivity.
Defined.

(** ** The tree for a role *)

Lemma GetPermissionTreesWithRole_run sort_slice db roleID :
  sorts sort_slice →
  NoDup (Permission_Code <$> permissions db) →
  ∃ roots heap,
    GetPermissionTrees sort_slice (S (length (permissions db))) db = Some (roots, heap) ∧
    GetPermissionTreesWithRole sort_slice (S (length (permissions db))) roleID db =
      Some (if bool_decide (roleID ∈ Role_ID <$> roles db)
            then inr (Build_RolePermissionData roleID roots, heap)
            else inl ErrRecordNotFound).
Proof.
  intros Hsort Hnd.
  destruct (GetPermissionTrees_linked sort_slice db Hsort Hnd)
    as (roots & h & tm & Hrun & Hcode & _ & Hl & Hroots & _).
  exists roots, h. split; [done|].
  unfold GetPermissionTreesWithRole, GetRolePermissions. rewrite Hrun.
  destruct (list_find _ (roles db)) as [[i r]|] eqn:Hfind.
  - apply list_find_Some in Hfind as (Hi & Hid & _).
    rewrite bool_decide_eq_true_2.
    2:{ rewrite <- Hid. apply list_elem_of_fmap_2. by eapply list_elem_of_lookup_2. }
    rewrite <- (Permutation_length (GetAllPermissions_perm db)).
    by rewrite (markSelected_roots _ tm Hcode _ h roots Hl Hroots).
  - apply list_find_None_not_elem in Hfind. by rewrite bool_decide_eq_false_2.
Qed.

(** X3: [GetPermissionTreesWithRole] answers a role that exists with the
    forest of [GetPermissionTrees], unmarked, and a role that does not
    with the error of the lookup; which permissions the join table gives
    the role changes nothing in the answer. *)
Theorem GetPermissionTreesWithRole_ignores_assignment sort_slice db roleID :
  sorts sort_slice →
  NoDup (Permission_Code <$> permissions db) →
  ∃ roots heap,
    GetPermissionTrees sort_slice (S (length (permissions db))) db = Some (roots, heap) ∧
    GetPermissionTreesWithRole sort_slice (S (length (permissions db))) roleID db =
      Some (if bool_decide (roleID ∈ Role_ID <$> roles db)
            then inr (Build_RolePermissionData roleID roots, heap)
            else inl ErrRecordNotFound) ∧
    ∀ rp,
      GetPermissionTreesWithRole sort_slice (S (length (permissions db))) roleID
        (set_role_permissions rp db) =
      GetPermissionTreesWithRole sort_slice (S (length (permissions db))) roleID db.
Proof.
  intros Hsort Hnd.
  destruct (GetPermissionTreesWithRole_run sort_slice db roleID Hsort Hnd)
    as (roots & h & Hrun & Hwith).
  exists roots, h. split_and!; [done|done|].
  intros rp.
  destruct (GetPermissionTreesWithRole_run sort_slice (set_role_permissions rp db)
              roleID Hsort Hnd) as (roots' & h' & Hrun' & Hwith').
  change (GetPermissionTrees sort_slice (S (length (permissions db))) db
            = Some (roots', h')) in Hrun'.
  rewrite Hrun in Hrun'. injection Hrun' as <- <-.
  rewrite Hwith. exact Hwith'.
Qed.

(** X3 for the second role of the sample database. *)
Lemma GetPermissionTreesWithRole_ignores_assignment_witness :
  ∃ roots heap,
    GetPermissionTrees insertion_sort (S (length (permissions db_rbac))) db_rbac
      = Some (roots, heap) ∧
    GetPermissionTreesWithRole insertion_sort (S (length (permissions db_rbac))) 2 db_rbac =
      Some (if bool_decide (2 ∈ Role_ID <$> roles db_rbac)
            then inr (Build_RolePermissionData 2 roots, heap)
            else inl ErrRecordNotFound) ∧
    ∀ rp,
      GetPermissionTreesWithRole insertion_sort (S (length (permissions db_rbac))) 2
        (set_role_permissions rp db_rbac) =
      GetPermissionTreesWithRole insertion_sort (S (length (permissions db_rbac))) 2 db_rbac.
Proof.
  apply (GetPermissionTreesWithRole_ignores_assignment insertion_sort db_rbac 2
           insertion_sort_sorts).
  decide_by_computation.
Defined.

(** ** Roles, their permissions and the permission checks *)

Lemma list_filter_ext_elem {A} (P Q : A → Prop)
    `{∀ x, Decision (P x)} `{∀ x, Decision (Q x)} (l : list A) :
  (∀ x, x ∈ l → P x ↔ Q x) → filter P l = filter Q l.
Proof.
  induction l as [|x l IH]; intros Hext; [done|].
  rewrite !filter_cons.
  assert (filter P l = filter Q l) as ->.
  { apply IH. intros y Hy. apply Hext. by right. }
  pose proof (Hext x (list_elem_of_here x l)) as Hx.
  destruct (decide (P x)), (decide (Q x)); tauto.
Qed.

(** What [GetRolePermissions] returns, read off the tables. *)
Lemma GetRolePermissions_tables roleID db :
  GetRolePermissions roleID db =
    if bool_decide (roleID ∈ Role_ID <$> roles db)
    then inr (Permission_row <$>
                filter (λ p, (roleID, Permission_ID p) ∈ role_permissions db)
                  (permissions db))
    else inl ErrRecordNotFound.
Proof.
  unfold GetRolePermissions.
  destruct (list_find _ (roles db)) as [[i r]|] eqn:Hfind.
  - apply list_find_Some in Hfind as (Hi & Hid & _).
    rewrite bool_decide_eq_true_2.
    2:{ rewrite <- Hid. apply list_elem_of_fmap_2. by eapply list_elem_of_lookup_2. }
    simpl. by rewrite Hid.
  - apply list_find_None_not_elem in Hfind. by rewrite bool_decide_eq_false_2.
Qed.

Lemma touch_Role_ID now id (rs : list Role) :
  Role_ID <$> (touch_Role now id <$> rs) = Role_ID <$> rs.
Proof.
  rewrite <- list_fmap_compose. apply list_fmap_ext. intros _ r _. simpl.
  unfold touch_Role. by destruct (decide _).
Qed.

(** The tables after a run of [AssignPermissionsToRole] without error. *)
Lemma AssignPermissionsToRole_success fails now roleID ids db db' :
  AssignPermissionsToRole fails now roleID ids db = (db', None) →
  roleID ∈ Role_ID <$> roles db ∧
  users db' = users db ∧ permissions db' = permissions db ∧
  Role_ID <$> roles db' = Role_ID <$> roles db ∧
  role_permissions db' =
    filter (λ rp, rp.1 ≠ roleID) (role_permissions db) ++
    ((λ p, (roleID, Permission_ID p)) <$>
       filter (λ p, Permission_ID p ∈ ids) (permissions db)).
Proof.
  unfold AssignPermissionsToRole.
  destruct (fails AssignFirst); [done|].
  destruct (list_find _ (roles db)) as [[i r]|] eqn:Hfind; [|done].
  apply list_find_Some in Hfind as (Hi & Hid & _).
  assert (roleID ∈ Role_ID <$> roles db) as Hin.
  { rewrite <- Hid. apply list_elem_of_fmap_2. by eapply list_elem_of_lookup_2. }
  destruct (fails AssignClear); [done|].
  destruct (decide (0 < length ids)) as [Hlen|Hlen].
  - destruct (fails AssignFind); [done|]. destruct (fails AssignAppend); [done|].
    intros [= <-]. simpl. rewrite touch_Role_ID, Hid. done.
  - intros [= <-]. simpl. destruct ids as [|x ids]; [|simpl in Hlen; lia].
    split_and!; [done..|].
    rewrite Hid.
    assert (filter (λ p, Permission_ID p ∈ []) (permissions db) = []) as ->.
    { induction (permissions db) as [|p ps IH]; [done|].
      rewrite filter_cons. destruct (decide _) as [Hp|_]; [|done].
      by apply not_elem_of_nil in Hp. }
    by rewrite app_nil_r.
Qed.

(** X4: after [AssignPermissionsToRole] has run without error,
    [GetRolePermissions] returns for the role exactly the stored
    permissions whose ids were given, in the order of the table and each
    once, whatever the role held before; ids of no permission are dropped
    silently; the permissions of every other role, the permissions table
    and the users are as before. *)
Theorem AssignPermissionsToRole_then_GetRolePermissions fails now roleID ids db db' :
  AssignPermissionsToRole fails now roleID ids db = (db', None) →
  GetRolePermissions roleID db' =
    inr (Permission_row <$>
           filter (λ p, Permission_ID p ∈ ids) (permissions db)) ∧
  (∀ other, other ≠ roleID →
     GetRolePermissions other db' = GetRolePermissions other db) ∧
  permissions db' = permissions db ∧ users db' = users db.
Proof.
  intros Hrun.
  apply AssignPermissionsToRole_success in Hrun as (Hin & Hu & Hp & Hr & Hrp).
  split_and!; [| |done|done].
  - rewrite GetRolePermissions_tables, Hr, Hp, Hrp.
    rewrite bool_decide_eq_true_2 by done. do 2 f_equal.
    apply list_filter_ext_elem. intros p Hpin.
    rewrite elem_of_app, list_elem_of_filter, list_elem_of_fmap. simpl. split.
    + intros [[Hne _]|(q & [= Hq] & Hqin)]; [done|].
      apply list_elem_of_filter in Hqin as [Hqids _]. by rewrite Hq.
    + intros Hids. right. exists p. split; [done|]. by apply list_elem_of_filter.
  - intros other Hne. rewrite !GetRolePermissions_tables, Hr, Hp, Hrp.
    destruct (bool_decide _); [|done]. do 2 f_equal.
    apply list_filter_ext_elem. intros p Hpin.
    rewrite elem_of_app, list_elem_of_filter, list_elem_of_fmap. simpl. split.
    + intros [[_ ?]|(q & [= Hq _] & _)]; [done|]. by destruct Hne.
    + intros Hin'. by left.
Qed.

(** X4 for the second role of the sample database, given two stored ids
    and one id of no permission. *)
Lemma AssignPermissionsToRole_then_GetRolePermissions_witness :
  GetRolePermissions 2
    (AssignPermissionsToRole (λ _, false) 7 2 [5; 99; 1] db_rbac).1 =
    inr (Permission_row <$>
           filter (λ p, Permission_ID p ∈ [5; 99; 1]) (permissions db_rbac)) ∧
  (∀ other, other ≠ 2 →
     GetRolePermissions other
       (AssignPermissionsToRole (λ _, false) 7 2 [5; 99; 1] db_rbac).1 =
     GetRolePermissions other db_rbac) ∧
  permissions (AssignPermissionsToRole (λ _, false) 7 2 [5; 99; 1] db_rbac).1
    = permissions db_rbac ∧
  users (AssignPermissionsToRole (λ _, false) 7 2 [5; 99; 1] db_rbac).1 = users db_rbac.
Proof.
  apply (AssignPermissionsToRole_then_GetRolePermissions (λ _, false) 7 2 [5; 99; 1]
           db_rbac).
  reflexivity.
Defined.

(** X5: [AssignPermissionsToRole] is not atomic.  When the database fails
    at the lookup of the permissions or at the append, the function
    returns the error, and the role, which held whatever it held, is left
    with no permission at all. *)
Theorem AssignPermissionsToRole_failure_keeps_clear fails now roleID ids db :
  roleID ∈ Role_ID <$> roles db →
  fails AssignFirst = false → fails AssignClear = false →
  ids ≠ [] →
  fails AssignFind || fails AssignAppend = true →
  (AssignPermissionsToRole fails now roleID ids db).2 = Some ErrDatabase ∧
  GetRolePermissions roleID (AssignPermissionsToRole fails now roleID ids db).1 = inr [].
Proof.
  intros Hin Hfirst Hclear Hids Hfail.
  destruct (list_find_is_Some_elem Role_ID roleID (roles db) Hin) as (i & r & Hfind & Hid).
  unfold AssignPermissionsToRole. rewrite Hfirst, Hfind, Hclear.
  destruct (decide (0 < length ids)) as [_|Hlen].
  2:{ destruct ids; [done|simpl in Hlen; lia]. }
  assert (GetRolePermissions roleID
            (set_role_permissions
               (filter (λ rp, rp.1 ≠ Role_ID r) (role_permissions db)) db) = inr [])
    as Hcleared.
  { rewrite GetRolePermissions_tables. simpl. rewrite bool_decide_eq_true_2 by done.
    f_equal. rewrite Hid.
    induction (permissions db) as [|p ps IH]; [done|].
    rewrite filter_cons. destruct (decide _) as [Hp|_]; [|done].
    by apply list_elem_of_filter in Hp as [Hp _]. }
  destruct (fails AssignFind); [done|].
  destruct (fails AssignAppend); [done|done].
Qed.

(** X5 for the administrator role of the sample database and a database
    that fails at the append. *)
Lemma AssignPermissionsToRole_failure_keeps_clear_witness :
  (AssignPermissionsToRole (λ s, match s with AssignAppend => true | _ => false end)
     7 1 [1; 2] db_rbac).2 = Some ErrDatabase ∧
  GetRolePermissions 1
    (AssignPermissionsToRole (λ s, match s with AssignAppend => true | _ => false end)
       7 1 [1; 2] db_rbac).1 = inr [].
Proof.
  apply (AssignPermissionsToRole_failure_keeps_clear
           (λ s, match s with AssignAppend => true | _ => false end) 7 1 [1; 2] db_rbac).
  - decide_by_computation.
  - reflexivity.
  - reflexivity.
  - discriminate.
  - reflexivity.
Defined.

Lemma has_code_elem c perms :
  has_code c perms = true ↔ c ∈ Permission_Code <$> perms.
Proof.
  induction perms as [|p perms IH]; simpl.
  - split; [done|by intros ?%not_elem_of_nil].
  - rewrite elem_of_cons. destruct (decide (Permission_Code p = c)) as [<-|Hne].
    + split; [by left|done].
    + rewrite IH. split; [by right|]. by intros [?|?].
Qed.

(** X6: [CheckPermission] answers [true] for exactly the codes
    [GetUserPermissions] lists. *)
Theorem CheckPermission_iff_GetUserPermissions userID permissionCode db :
  CheckPermission userID permissionCode db = true ↔
  permissionCode ∈ GetUserPermissions userID db.
Proof.
  unfold CheckPermission, GetUserPermissions.
  destruct (list_find _ (users db)) as [[i u]|].
  - destruct (User_Role (preload_Role db u)) as [role|].
    + apply has_code_elem.
    + split; [done|by intros ?%not_elem_of_nil].
  - split; [done|by intros ?%not_elem_of_nil].
Qed.

(** Both checks go through the user's [role_id] and the role's rows of
    the join table. *)
Lemma GetUserPermissions_tables userID db :
  GetUserPermissions userID db =
    match GetUserByID userID db with
    | inr u =>
        match User_RoleID u with
        | Some rid =>
            match GetRolePermissions rid db with
            | inr ps => Permission_Code <$> ps
            | inl _ => []
            end
        | None => []
        end
    | inl _ => []
    end.
Proof.
  unfold GetUserPermissions, GetUserByID, GetRolePermissions.
  destruct (list_find _ (users db)) as [[i u]|]; [|done].
  simpl. destruct (User_RoleID u) as [rid|]; [|done].
  by destruct (list_find _ (roles db)) as [[j r]|].
Qed.

Lemma CheckPermission_tables userID permissionCode db :
  CheckPermission userID permissionCode db =
    match GetUserByID userID db with
    | inr u =>
        match User_RoleID u with
        | Some rid =>
            match GetRolePermissions rid db with
            | inr ps => has_code permissionCode ps
            | inl _ => false
            end
        | None => false
        end
    | inl _ => false
    end.
Proof.
  unfold CheckPermission, GetUserByID, GetRolePermissions.
  destruct (list_find _ (users db)) as [[i u]|]; [|done].
  simpl. destruct (User_RoleID u) as [rid|]; [|done].
  by destruct (list_find _ (roles db)) as [[j r]|].
Qed.

(** X7: once [DeleteRole] has deleted a role, a user whose [role_id] still
    names it passes no permission check and is listed no permission; the
    user's row is as it was. *)
Theorem DeleteRole_revokes id db userID u permissionCode :
  GetUserByID userID db = inr u →
  User_RoleID u = Some id →
  CheckPermission userID permissionCode (DeleteRole id db).1 = false ∧
  GetUserPermissions userID (DeleteRole id db).1 = [] ∧
  GetUserByID userID (DeleteRole id db).1 = inr u.
Proof.
  intros Hu Hrole.
  assert (GetRolePermissions id (DeleteRole id db).1 = inl ErrRecordNotFound) as Hgone.
  { rewrite GetRolePermissions_tables. simpl.
    rewrite bool_decide_eq_false_2; [done|].
    intros Hin. apply list_elem_of_fmap in Hin as (r & Hr & Hin).
    by apply list_elem_of_filter in Hin as [Hne _]. }
  assert (GetUserByID userID (DeleteRole id db).1 = inr u) as Hu' by done.
  rewrite CheckPermission_tables, GetUserPermissions_tables.
  by rewrite Hu', Hrole, Hgone.
Qed.

(** X7 for the second role and the second user of the sample database. *)
Lemma DeleteRole_revokes_witness :
  CheckPermission 2 "dashboard" (DeleteRole 2 db_rbac).1 = false ∧
  GetUserPermissions 2 (DeleteRole 2 db_rbac).1 = [] ∧
  GetUserByID 2 (DeleteRole 2 db_rbac).1
    = inr (user_with_role 2 "guest" "$2a$10$guest123" (Some 2)).
Proof.
  apply (DeleteRole_revokes 2 db_rbac 2
           (user_with_role 2 "guest" "$2a$10$guest123" (Some 2)) "dashboard").
  - reflexivity.
  - reflexivity.
Defined.

(** X8: after [AssignPermissionsToRole] has run without error, a user of
    the role passes [CheckPermission] for exactly the codes of the stored
    permissions whose ids were given. *)
Theorem AssignPermissionsToRole_then_CheckPermission
    fails now roleID ids db db' userID u permissionCode :
  AssignPermissionsToRole fails now roleID ids db = (db', None) →
  GetUserByID userID db = inr u →
  User_RoleID u = Some roleID →
  CheckPermission userID permissionCode db' = true ↔
  ∃ p, p ∈ permissions db ∧ Permission_ID p ∈ ids ∧
       Permission_Code p = permissionCode.
Proof.
  intros Hrun Hu Hrole.
  apply AssignPermissionsToRole_success in Hrun as (Hin & Husers & Hp & Hr & Hrp).
  rewrite CheckPermission_tables. unfold GetUserByID in *. rewrite Husers.
  destruct (list_find _ (users db)) as [[i u']|]; [|done].
  injection Hu as ->. rewrite Hrole, GetRolePermissions_tables, Hr, Hp, Hrp.
  rewrite bool_decide_eq_true_2 by done.
  rewrite has_code_elem, <- list_fmap_compose, list_elem_of_fmap.
  split.
  - intros (p & -> & Hpin). apply list_elem_of_filter in Hpin as [Hjoin Hpin].
    exists p. split_and!; [done| |done].
    apply elem_of_app in Hjoin as [Hjoin|Hjoin].
    + by apply list_elem_of_filter in Hjoin as [? _].
    + apply list_elem_of_fmap in Hjoin as (q & [= Hq] & Hqin).
      apply list_elem_of_filter in Hqin as [? _]. by rewrite Hq.
  - intros (p & Hpin & Hids & <-). exists p. split; [done|].
    apply list_elem_of_filter. split; [|done].
    apply elem_of_app. right. apply list_elem_of_fmap. exists p. split; [done|].
    by apply list_elem_of_filter.
Qed.

(** X8 for the second user of the sample database. *)
Lemma AssignPermissionsToRole_then_CheckPermission_witness :
  CheckPermission 2 "system:user:view"
    (AssignPermissionsToRole (λ _, false) 7 2 [5; 99] db_rbac).1 = true ↔
  ∃ p, p ∈ permissions db_rbac ∧ Permission_ID p ∈ [5; 99] ∧
       Permission_Code p = "system:user:view".
Proof.
  apply (AssignPermissionsToRole_then_CheckPermission (λ _, false) 7 2 [5; 99] db_rbac
           (AssignPermissionsToRole (λ _, false) 7 2 [5; 99] db_rbac).1 2
           (user_with_role 2 "guest" "$2a$10$guest123" (Some 2)) "system:user:view").
  - reflexivity.
  - reflexivity.
  - reflexivity.
Defined.

(** ** Creating and updating permissions and roles *)

Lemma next_id_fresh ids : next_id ids ∉ ids.
Proof. intros Hin. apply max_list_elem_of_le in Hin. unfold next_id in Hin. lia. Qed.

Lemma list_find_app_fresh {A B} `{EqDecision B} (f : A → B) (l : list A) (x : A) :
  f x ∉ f <$> l →
  list_find (λ y, f y = f x) (l ++ [x]) = Some (length l, x).
Proof.
  intros Hfresh. apply list_find_Some. split_and!.
  - by apply list_lookup_middle.
  - done.
  - intros j y Hj Hlt Hy. apply Hfresh. rewrite <- Hy.
    apply list_elem_of_fmap_2. rewrite lookup_app_l in Hj by done.
    by eapply list_elem_of_lookup_2.
Qed.

Lemma list_find_app_other {A B} `{EqDecision B} (f : A → B) (b : B) (l : list A) (x : A) :
  f x ≠ b →
  list_find (λ y, f y = b) (l ++ [x]) = list_find (λ y, f y = b) l.
Proof.
  intros Hne. induction l as [|y l IH]; simpl.
  - by rewrite decide_False.
  - destruct (decide (f y = b)); [done|]. by rewrite IH.
Qed.

(** X9: [CreatePermission] of a permission without id whose code is not in
    the table stores it: the returned record has an id no stored
    permission had, both lookups find its row, the rows stored before are
    kept, and the lookup of every other code answers as before. *)
Theorem CreatePermission_then_lookups now permission db :
  Permission_ID permission = 0 →
  Permission_Roles permission = [] →
  Permission_Code permission ∉ Permission_Code <$> permissions db →
  ∃ db' permission',
    CreatePermission now permission db = (db', permission', None) ∧
    Permission_Code permission' = Permission_Code permission ∧
    (Permission_ID permission' ∉ Permission_ID <$> permissions db) ∧
    permissions db' = permissions db ++ [Permission_row permission'] ∧
    GetPermissionByCode (Permission_Code permission) db' = inr (Permission_row permission') ∧
    GetPermissionByID (Permission_ID permission') db' = inr (Permission_row permission') ∧
    (∀ code, code ≠ Permission_Code permission →
       GetPermissionByCode code db' = GetPermissionByCode code db).
Proof.
  intros Hid Hroles Hfresh.
  unfold CreatePermission, gorm_Create_Permission.
  rewrite (proj2 (list_find_None_not_elem Permission_Code _ _) Hfresh).
  rewrite bool_decide_eq_false_2 by done.
  rewrite decide_True by done.
  rewrite bool_decide_eq_false_2 by apply next_id_fresh.
  eexists _, _. split; [reflexivity|]. simpl.
  split_and!; [done|apply next_id_fresh|done| | |].
  - unfold GetPermissionByCode. simpl.
    match goal with |- context [permissions db ++ [?x]] => set (row := x) end.
    rewrite (list_find_app_fresh Permission_Code (permissions db) row) by done.
    done.
  - unfold GetPermissionByID. simpl.
    match goal with |- context [permissions db ++ [?x]] => set (row := x) end.
    rewrite (list_find_app_fresh Permission_ID (permissions db) row)
      by apply next_id_fresh.
    done.
  - intros code Hne. unfold GetPermissionByCode. simpl.
    by rewrite (list_find_app_other Permission_Code).
Qed.

(** X9 for a new button permission in the seeded table. *)
Lemma CreatePermission_then_lookups_witness :
  ∃ db' permission',
    CreatePermission 7 (perm 0 "system:role:edit" "system:role" 0 3) db_seed
      = (db', permission', None) ∧
    Permission_Code permission' = Permission_Code (perm 0 "system:role:edit" "system:role" 0 3) ∧
    (Permission_ID permission' ∉ Permission_ID <$> permissions db_seed) ∧
    permissions db' = permissions db_seed ++ [Permission_row permission'] ∧
    GetPermissionByCode (Permission_Code (perm 0 "system:role:edit" "system:role" 0 3)) db'
      = inr (Permission_row permission') ∧
    GetPermissionByID (Permission_ID permission') db' = inr (Permission_row permission') ∧
    (∀ code, code ≠ Permission_Code (perm 0 "system:role:edit" "system:role" 0 3) →
       GetPermissionByCode code db' = GetPermissionByCode code db_seed).
Proof.
  apply (CreatePermission_then_lookups 7 (perm 0 "system:role:edit" "system:role" 0 3)
           db_seed).
  - reflexivity.
  - reflexivity.
  - decide_by_computation.
Defined.

(** X10: [CreatePermission] of a permission without id fails exactly when
    its code is the code of a stored permission; the error then names the
    code, and the database is as before. *)
Theorem CreatePermission_error_iff_duplicate now permission db :
  Permission_ID permission = 0 →
  Permission_Roles permission = [] →
  ((CreatePermission now permission db).2 ≠ None ↔
   Permission_Code permission ∈ Permission_Code <$> permissions db) ∧
  ((CreatePermission now permission db).2 ≠ None →
   CreatePermission now permission db =
     (db, permission, Some (ErrPermissionCodeExists (Permission_Code permission)))).
Proof.
  intros Hid _. unfold CreatePermission, gorm_Create_Permission.
  destruct (list_find _ (permissions db)) as [[i p]|] eqn:Hfind.
  - apply list_find_Some in Hfind as (Hi & Hcode & _). simpl.
    split; [|done]. split; [|done]. intros _. rewrite <- Hcode.
    apply list_elem_of_fmap_2. by eapply list_elem_of_lookup_2.
  - apply list_find_None_not_elem in Hfind.
    rewrite bool_decide_eq_false_2 by done.
    rewrite decide_True by done.
    rewrite bool_decide_eq_false_2 by apply next_id_fresh.
    simpl. split; [|done]. split; [done|]. intros Hin. by destruct Hfind.
Qed.

(** X10 for a permission whose code the seeded table has. *)
Lemma CreatePermission_error_iff_duplicate_witness :
  ((CreatePermission 7 (perm 0 "dashboard" "" 1 0) db_seed).2 ≠ None ↔
   Permission_Code (perm 0 "dashboard" "" 1 0) ∈ Permission_Code <$> permissions db_seed) ∧
  ((CreatePermission 7 (perm 0 "dashboard" "" 1 0) db_seed).2 ≠ None →
   CreatePermission 7 (perm 0 "dashboard" "" 1 0) db_seed =
     (db_seed, perm 0 "dashboard" "" 1 0,
      Some (ErrPermissionCodeExists (Permission_Code (perm 0 "dashboard" "" 1 0))))).
Proof.
  apply (CreatePermission_error_iff_duplicate 7 (perm 0 "dashboard" "" 1 0) db_seed).
  - reflexivity.
  - reflexivity.
Defined.

(** The row [gorm_Save_Permission] writes. *)
Definition saved_Permission (now : Z) (permission : Permission) : Permission :=
  Build_Permission (Permission_ID permission) (Permission_Name permission)
    (Permission_Code permission) (Permission_ParentCode permission)
    (Permission_Path permission) (Permission_Type permission)
    (Permission_Sort permission) (Permission_Description permission)
    (Permission_CreatedAt permission) now [].

Lemma gorm_Save_Permission_rows now permission db :
  permissions (gorm_Save_Permission now permission db) =
    (λ p, if decide (Permission_ID p = Permission_ID permission)
          then saved_Permission now permission else p) <$> permissions db.
Proof. done. Qed.

Lemma save_ID now permission (l : list Permission) :
  Permission_ID <$>
    ((λ p, if decide (Permission_ID p = Permission_ID permission)
           then saved_Permission now permission else p) <$> l)
  = Permission_ID <$> l.
Proof.
  rewrite <- list_fmap_compose. apply list_fmap_ext. intros _ p _. simpl.
  by destruct (decide _) as [->|].
Qed.

Lemma save_Code_NoDup now permission (l : list Permission) :
  NoDup (Permission_Code <$> l) → NoDup (Permission_ID <$> l) →
  (∀ q, q ∈ l → Permission_Code q = Permission_Code permission →
        Permission_ID q = Permission_ID permission) →
  NoDup (Permission_Code <$>
    ((λ p, if decide (Permission_ID p = Permission_ID permission)
           then saved_Permission now permission else p) <$> l)).
Proof.
  induction l as [|x l IH]; [constructor|].
  rewrite !fmap_cons, !NoDup_cons. intros [Hxc Hc] [Hxi Hi] Hconf.
  split.
  - intros Hin. apply list_elem_of_fmap in Hin as (y' & Hy' & Hin).
    apply list_elem_of_fmap in Hin as (y & -> & Hy).
    destruct (decide (Permission_ID x = _)) as [Hx|Hx];
      destruct (decide (Permission_ID y = _)) as [Hyid|Hyid]; simpl in Hy'.
    + apply Hxi. rewrite Hx, <- Hyid. by apply list_elem_of_fmap_2.
    + apply Hyid. apply Hconf; [by right|done].
    + apply Hx. apply Hconf; [by left|done].
    + apply Hxc. rewrite Hy'. by apply list_elem_of_fmap_2.
  - apply IH; [done|done|]. intros q Hq. apply Hconf. by right.
Qed.

Lemma list_find_ID_save now permission id (l : list Permission) :
  list_find (λ p, Permission_ID p = id)
    ((λ p, if decide (Permission_ID p = Permission_ID permission)
           then saved_Permission now permission else p) <$> l)
  = prod_map (λ i, i)
      (λ p, if decide (Permission_ID p = Permission_ID permission)
            then saved_Permission now permission else p)
    <$> list_find (λ p, Permission_ID p = id) l.
Proof.
  induction l as [|x l IH]; [done|].
  rewrite fmap_cons. cbn [list_find]. rewrite IH.
  destruct (decide (Permission_ID x = Permission_ID permission)) as [Hx|Hx].
  - cbn [saved_Permission Permission_ID]. rewrite <- Hx.
    destruct (decide (Permission_ID x = id)).
    + cbn. by rewrite decide_True.
    + by destruct (list_find _ l) as [[??]|].
  - destruct (decide (Permission_ID x = id)).
    + cbn. by rewrite decide_False.
    + by destruct (list_find _ l) as [[??]|].
Qed.

(** When [UpdatePermission] saves. *)
Lemma UpdatePermission_cases now permission db :
  NoDup (Permission_Code <$> permissions db) →
  (Permission_ID permission ∈ Permission_ID <$> permissions db ∧
   (∀ q, q ∈ permissions db → Permission_Code q = Permission_Code permission →
         Permission_ID q = Permission_ID permission) ∧
   UpdatePermission now permission db = (gorm_Save_Permission now permission db, None)) ∨
  (¬ (Permission_ID permission ∈ Permission_ID <$> permissions db ∧
      ∀ q, q ∈ permissions db → Permission_Code q = Permission_Code permission →
           Permission_ID q = Permission_ID permission) ∧
   ∃ err, UpdatePermission now permission db = (db, Some err)).
Proof.
  intros Hnd. unfold UpdatePermission.
  destruct (list_find _ (permissions db)) as [[i e]|] eqn:Hfind.
  - apply list_find_Some in Hfind as (Hi & Hid & _).
    assert (e ∈ permissions db) as He by by eapply list_elem_of_lookup_2.
    assert (Permission_ID permission ∈ Permission_ID <$> permissions db) as Hin.
    { rewrite <- Hid. by apply list_elem_of_fmap_2. }
    destruct (decide (Permission_Code permission ≠ Permission_Code e)) as [Hne|Heq].
    + destruct (list_find _ (permissions db)) as [[j q]|] eqn:Hconf.
      * apply list_find_Some in Hconf as (Hj & [Hqc Hqi] & _).
        right. split; [|by eexists]. intros [_ Hall]. apply Hqi.
        apply Hall; [by eapply list_elem_of_lookup_2|done].
      * left. split_and!; [done| |done].
        rewrite list_find_None, Forall_forall in Hconf.
        intros q Hq Hqc. destruct (decide (Permission_ID q = Permission_ID permission));
          [done|]. by destruct (Hconf q Hq).
    + left. split_and!; [done| |done].
      apply dec_stable in Heq. intros q Hq Hqc.
      assert (q = e) as ->; [|done].
      apply (NoDup_fmap_elem_inj Permission_Code (permissions db)); [done..|congruence].
  - right. split; [|by eexists]. intros [Hin _].
    by apply list_find_None_not_elem in Hfind.
Qed.

(** X11: on a table with unique codes and ids, [UpdatePermission] saves
    exactly when the id is stored and no permission with another id has
    the code; it then leaves the codes and ids of the table unique, so
    that the save cannot run into the unique index, and otherwise it
    leaves the database as it was. *)
Theorem UpdatePermission_keeps_unique now permission db :
  permissions_unique db →
  Permission_ID permission ≠ 0 →
  Permission_Roles permission = [] →
  permissions_unique (UpdatePermission now permission db).1 ∧
  ((UpdatePermission now permission db).2 = None ↔
   Permission_ID permission ∈ Permission_ID <$> permissions db ∧
   ∀ q, q ∈ permissions db → Permission_Code q = Permission_Code permission →
        Permission_ID q = Permission_ID permission) ∧
  ((UpdatePermission now permission db).2 ≠ None →
   (UpdatePermission now permission db).1 = db).
Proof.
  intros [Hc Hi] _ _.
  destruct (UpdatePermission_cases now permission db Hc)
    as [(Hin & Hconf & ->)|(Hno & err & ->)]; cbn [fst snd].
  - split_and!; [|done|done].
    unfold permissions_unique. rewrite gorm_Save_Permission_rows. split.
    + by apply save_Code_NoDup.
    + by rewrite save_ID.
  - split_and!; [done| |done]. split; [done|]. by intros ?.
Qed.

(** X11 for a change of the code of "system:role" to one another
    permission has. *)
Lemma UpdatePermission_keeps_unique_witness :
  permissions_unique (UpdatePermission 7 (perm 3 "dashboard" "system" 1 2) db_seed).1 ∧
  ((UpdatePermission 7 (perm 3 "dashboard" "system" 1 2) db_seed).2 = None ↔
   Permission_ID (perm 3 "dashboard" "system" 1 2) ∈ Permission_ID <$> permissions db_seed ∧
   ∀ q, q ∈ permissions db_seed →
        Permission_Code q = Permission_Code (perm 3 "dashboard" "system" 1 2) →
        Permission_ID q = Permission_ID (perm 3 "dashboard" "system" 1 2)) ∧
  ((UpdatePermission 7 (perm 3 "dashboard" "system" 1 2) db_seed).2 ≠ None →
   (UpdatePermission 7 (perm 3 "dashboard" "system" 1 2) db_seed).1 = db_seed).
Proof.
  apply (UpdatePermission_keeps_unique 7 (perm 3 "dashboard" "system" 1 2) db_seed).
  - split; decide_by_computation.
  - simpl. lia.
  - reflexivity.
Defined.

(** X12: after [UpdatePermission] has run without error,
    [GetPermissionByID] returns for the id every column as the record
    gave it, [created_at] included, with [updated_at] the time of the
    save; every other id is answered as before. *)
Theorem UpdatePermission_then_GetPermissionByID now permission db db' :
  Permission_ID permission ≠ 0 →
  Permission_Roles permission = [] →
  UpdatePermission now permission db = (db', None) →
  GetPermissionByID (Permission_ID permission) db' = inr (saved_Permission now permission) ∧
  (∀ id, id ≠ Permission_ID permission →
     GetPermissionByID id db' = GetPermissionByID id db).
Proof.
  intros _ _ Hrun.
  assert (db' = gorm_Save_Permission now permission db ∧
          is_Some (list_find (λ p, Permission_ID p = Permission_ID permission)
                     (permissions db))) as [-> [[i e] Hfind]].
  { unfold UpdatePermission in Hrun.
    destruct (list_find _ (permissions db)) as [[i e]|]; [|done].
    split; [|by eexists].
    destruct (decide _); [|congruence].
    destruct (list_find _ (permissions db)); [done|congruence]. }
  unfold GetPermissionByID. rewrite gorm_Save_Permission_rows. split.
  - rewrite list_find_ID_save, Hfind. simpl.
    apply list_find_Some in Hfind as (_ & Hid & _).
    by destruct (decide _).
  - clear Hfind. intros id Hne. rewrite list_find_ID_save.
    destruct (list_find (λ p, Permission_ID p = id) (permissions db))
      as [[j p]|] eqn:Hj; [|done].
    apply list_find_Some in Hj as (_ & Hid & _). simpl.
    destruct (decide _); [congruence|done].
Qed.

(** X12 for a rename of "system:role" given without its creation time. *)
Lemma UpdatePermission_then_GetPermissionByID_witness :
  GetPermissionByID (Permission_ID (perm 3 "system:roles" "system" 1 2))
    (UpdatePermission 7 (perm 3 "system:roles" "system" 1 2) db_seed).1
    = inr (saved_Permission 7 (perm 3 "system:roles" "system" 1 2)) ∧
  (∀ id, id ≠ Permission_ID (perm 3 "system:roles" "system" 1 2) →
     GetPermissionByID id (UpdatePermission 7 (perm 3 "system:roles" "system" 1 2) db_seed).1
     = GetPermissionByID id db_seed).
Proof.
  apply (UpdatePermission_then_GetPermissionByID 7 (perm 3 "system:roles" "system" 1 2)
           db_seed).
  - simpl. lia.
  - reflexivity.
  - reflexivity.
Defined.

Lemma filter_length_pos {A} (P : A → Prop) `{∀ x, Decision (P x)} (l : list A) :
  0 < length (filter P l) ↔ ∃ x, x ∈ l ∧ P x.
Proof.
  split.
  - destruct (filter P l) as [|x l'] eqn:Hf; simpl; [lia|]. intros _.
    assert (x ∈ filter P l) as Hx by (rewrite Hf; left).
    apply list_elem_of_filter in Hx as [? ?]. by exists x.
  - intros (x & Hx & HP).
    assert (x ∈ filter P l) as Hin by by apply list_elem_of_filter.
    destruct (filter P l); [by apply not_elem_of_nil in Hin|simpl; lia].
Qed.

(** X13: [CreateRole] of a role without id and without permissions
    refuses a code a stored role has, with the error of the service and
    the database as before, and otherwise stores the role under an id no
    stored role had, where [GetRoleByCode] finds it. *)
Theorem CreateRole_code_check now role db :
  Role_ID role = 0 →
  Role_Permissions role = [] →
  (Role_Code role ∈ Role_Code <$> roles db →
   CreateRole now role db = (db, role, Some ErrRoleCodeExists)) ∧
  (Role_Code role ∉ Role_Code <$> roles db →
   ∃ db' role',
     CreateRole now role db = (db', role', None) ∧
     (Role_ID role' ∉ Role_ID <$> roles db) ∧
     Role_Code role' = Role_Code role ∧
     roles db' = roles db ++ [Role_row role'] ∧
     ∃ found, GetRoleByCode (Role_Code role) db' = inr found ∧
              Role_row found = Role_row role').
Proof.
  intros Hid _. unfold CreateRole. split.
  - intros Hin. rewrite decide_True; [done|].
    apply filter_length_pos. apply list_elem_of_fmap in Hin as (r & Hr & Hin).
    by exists r.
  - intros Hfresh. rewrite decide_False.
    2:{ rewrite filter_length_pos. intros (r & Hr & Hc). apply Hfresh.
        rewrite <- Hc. by apply list_elem_of_fmap_2. }
    unfold gorm_Create_Role.
    rewrite bool_decide_eq_false_2 by done.
    rewrite decide_True by done.
    rewrite bool_decide_eq_false_2 by apply next_id_fresh.
    eexists _, _. split; [reflexivity|]. simpl.
    split_and!; [apply next_id_fresh|done|done|].
    unfold GetRoleByCode. simpl.
    match goal with |- context [roles db ++ [?x]] => set (row := x) end.
    rewrite (list_find_app_fresh Role_Code (roles db) row) by done.
    eexists. split; [reflexivity|done].
Qed.

(** X13 for a second role with the code of the administrator. *)
Lemma CreateRole_code_check_witness :
  (Role_Code (Build_Role 0 "管理员" "admin" "" 0 0 []) ∈ Role_Code <$> roles db_rbac →
   CreateRole 7 (Build_Role 0 "管理员" "admin" "" 0 0 []) db_rbac
     = (db_rbac, Build_Role 0 "管理员" "admin" "" 0 0 [], Some ErrRoleCodeExists)) ∧
  (Role_Code (Build_Role 0 "管理员" "admin" "" 0 0 []) ∉ Role_Code <$> roles db_rbac →
   ∃ db' role',
     CreateRole 7 (Build_Role 0 "管理员" "admin" "" 0 0 []) db_rbac = (db', role', None) ∧
     (Role_ID role' ∉ Role_ID <$> roles db_rbac) ∧
     Role_Code role' = Role_Code (Build_Role 0 "管理员" "admin" "" 0 0 []) ∧
     roles db' = roles db_rbac ++ [Role_row role'] ∧
     ∃ found,
       GetRoleByCode (Role_Code (Build_Role 0 "管理员" "admin" "" 0 0 [])) db' = inr found ∧
       Role_row found = Role_row role').
Proof.
  apply (CreateRole_code_check 7 (Build_Role 0 "管理员" "admin" "" 0 0 []) db_rbac).
  - reflexivity.
  - reflexivity.
Defined.

(** ** Deleting users *)

(** X14: [UserController.Delete] answers with success for every id, stored
    or not; afterwards [GetUserByID] finds no user with the id, every
    other id is answered as before, and for an id that was not stored the
    database is as before. *)
Theorem UserController_Delete_always_succeeds id db :
  (UserController_Delete id db).2 = (StatusOK, Success None) ∧
  GetUserByID id (UserController_Delete id db).1 = inl ErrUserNotFound ∧
  (∀ other, other ≠ id →
     GetUserByID other (UserController_Delete id db).1 = GetUserByID other db) ∧
  (id ∉ User_ID <$> users db → (UserController_Delete id db).1 = db).
Proof.
  unfold UserController_Delete, DeleteUser, GetUserByID. simpl. split_and!.
  - done.
  - rewrite (proj2 (list_find_None_not_elem User_ID id _)); [done|].
    intros Hin. apply list_elem_of_fmap in Hin as (u & Hu & Hin).
    by apply list_elem_of_filter in Hin as [Hne _].
  - intros other Hne. induction (users db) as [|u us IH]; [done|].
    rewrite filter_cons. destruct (decide (User_ID u ≠ id)) as [Hu|Hu]; simpl.
    + destruct (decide (User_ID u = other)); [done|].
      destruct (list_find _ (filter _ us)) as [[??]|],
        (list_find _ us) as [[??]|]; simpl in *; congruence.
    + apply dec_stable in Hu. rewrite decide_False by congruence.
      destruct (list_find _ (filter _ us)) as [[??]|],
        (list_find _ us) as [[??]|]; simpl in *; congruence.
  - intros Hfresh. destruct db as [us rs ps rps]. unfold set_users. simpl in *.
    f_equal. induction us as [|u us IH]; [done|].
    rewrite fmap_cons, not_elem_of_cons in Hfresh. destruct Hfresh as [Hu Hus].
    rewrite filter_cons, decide_True by done. f_equal. by apply IH.
Qed.

(** ** Paging *)

Lemma GetUserList_page_rows k pageSize db :
  (0 < pageSize)%Z → (Z.of_nat (S k) * pageSize < 2 ^ 63)%Z →
  (GetUserList (Z.of_nat (S k)) pageSize db).1 =
    take (Z.to_nat pageSize) (drop (k * Z.to_nat pageSize) (users db)).
Proof.
  intros Hpos Hfit. unfold GetUserList. simpl.
  assert (Z.of_nat (S k) - 1 = Z.of_nat k)%Z as -> by lia.
  rewrite (wrap_int_small (Z.of_nat k)) by nia.
  rewrite wrap_int_small by nia.
  rewrite gorm_Offset_Limit_page by nia.
  by rewrite Z2Nat.inj_mul, Nat2Z.id by lia.
Qed.

(** X15: for a positive page size, the pages 1 to k of [GetUserList], one
    after the other, are the first k * pageSize users of the table: no
    user is left out or given twice between pages, and enough pages give
    the whole table. *)
Theorem GetUserList_pages_cover k pageSize db :
  (0 < pageSize)%Z → (Z.of_nat k * pageSize < 2 ^ 63)%Z →
  user_pages k pageSize db = take (k * Z.to_nat pageSize) (users db) ∧
  (length (users db) ≤ k * Z.to_nat pageSize → user_pages k pageSize db = users db).
Proof.
  intros Hpos Hfit.
  assert (user_pages k pageSize db = take (k * Z.to_nat pageSize) (users db)) as Hpages.
  { unfold user_pages. induction k as [|k IH]; [done|].
    rewrite seq_S, fmap_app, join_app, IH by nia.
    assert (∀ f : nat → list User, mjoin (f <$> [0 + k]) = f k) as ->
      by (intros f; simpl; apply app_nil_r).
    rewrite GetUserList_page_rows by done.
    rewrite take_take_drop. f_equal. lia. }
  split; [done|]. intros Hlen. rewrite Hpages. by apply take_ge.
Qed.

(** X15 for two pages of two on the three users of the sample database. *)
Lemma GetUserList_pages_cover_witness :
  user_pages 2 2 db_rbac = take (2 * Z.to_nat 2) (users db_rbac) ∧
  (length (users db_rbac) ≤ 2 * Z.to_nat 2 → user_pages 2 2 db_rbac = users db_rbac).
Proof.
  apply (GetUserList_pages_cover 2 2 db_rbac); lia.
Defined.

(** X16: [GetUserList] and [GetRoleList] answer a page below 1, which
    [strconv.Atoi] lets through, as they answer page 1. *)
Theorem GetUserList_GetRoleList_page_below_one page pageSize db :
  is_int (page - 1) → is_int pageSize → is_int ((page - 1) * pageSize) →
  (page ≤ 0)%Z → (0 ≤ pageSize)%Z →
  GetUserList page pageSize db = GetUserList 1 pageSize db ∧
  GetRoleList page pageSize db = GetRoleList 1 pageSize db.
Proof.
  unfold is_int. intros Hp1 Hs Hfit Hpage Hsize.
  unfold GetUserList, GetRoleList.
  rewrite (wrap_int_small (page - 1)) by done.
  rewrite (wrap_int_small ((page - 1) * pageSize)) by done.
  assert (wrap_int (wrap_int (1 - 1) * pageSize) = 0%Z) as ->.
  { change (1 - 1)%Z with 0%Z. rewrite (wrap_int_small 0) by lia.
    rewrite Z.mul_0_l. apply wrap_int_small. lia. }
  unfold gorm_Offset_Limit.
  assert ((0 <? (page - 1) * pageSize)%Z = false) as -> by (apply Z.ltb_ge; nia).
  done.
Qed.

(** X16 for page 0 of ten. *)
Lemma GetUserList_GetRoleList_page_below_one_witness :
  GetUserList 0 10 db_rbac = GetUserList 1 10 db_rbac ∧
  GetRoleList 0 10 db_rbac = GetRoleList 1 10 db_rbac.
Proof.
  apply (GetUserList_GetRoleList_page_below_one 0 10 db_rbac); unfold is_int; lia.
Defined.

(** X17: for a negative page size, which [strconv.Atoi] lets through as
    well, [GetUserList] and [GetRoleList] return the whole table on every
    page from 1 on. *)
Theorem GetUserList_GetRoleList_negative_size page pageSize db :
  is_int (page - 1) → is_int pageSize → is_int ((page - 1) * pageSize) →
  (1 ≤ page)%Z → (pageSize < 0)%Z →
  (GetUserList page pageSize db).1 = users db ∧
  (GetRoleList page pageSize db).1 = roles db.
Proof.
  unfold is_int. intros Hp1 Hs Hfit Hpage Hsize.
  unfold GetUserList, GetRoleList.
  rewrite (wrap_int_small (page - 1)) by done.
  rewrite (wrap_int_small ((page - 1) * pageSize)) by done.
  unfold gorm_Offset_Limit.
  assert ((0 <? (page - 1) * pageSize)%Z = false) as -> by (apply Z.ltb_ge; nia).
  assert ((0 <=? pageSize)%Z = false) as -> by (apply Z.leb_gt; lia).
  done.
Qed.

(** X17 for page 3 of size -1. *)
Lemma GetUserList_GetRoleList_negative_size_witness :
  (GetUserList 3 (-1) db_rbac).1 = users db_rbac ∧
  (GetRoleList 3 (-1) db_rbac).1 = roles db_rbac.
Proof.
  apply (GetUserList_GetRoleList_negative_size 3 (-1) db_rbac); unfold is_int; lia.
Defined.

(** ** The forest is a forest *)

Lemma omap_index_sublist {A} (f : A → option nat) (l : list A) (k : nat) :
  (∀ i x c, l !! i = Some x → f x = Some c → c = k + i) →
  omap f l `sublist_of` seq k (length l).
Proof.
  revert k. induction l as [|x l IH]; intros k Hidx; [constructor|].
  assert (omap f l `sublist_of` seq (S k) (length l)) as Hrest.
  { apply IH. intros i y c Hi Hc. rewrite (Hidx (S i) y c Hi Hc). lia. }
  simpl. destruct (f x) as [c|] eqn:Hx.
  - rewrite (Hidx 0 x c eq_refl Hx), Nat.add_0_r. by constructor.
  - by constructor.
Qed.

(** X18: the [Children] slices of the node table [GetPermissionTrees]
    returns hold nothing but children: an entry of the slice of the node
    of [q] is the node of a permission whose non-empty parent code is the
    code of [q]; no slice and not the root slice names a node twice; and
    [HasChildren] is set on exactly the nodes whose slice is not empty. *)
Theorem GetPermissionTrees_children_exact sort_slice db :
  sorts sort_slice →
  NoDup (Permission_Code <$> permissions db) →
  ∃ roots heap,
    GetPermissionTrees sort_slice (S (length (permissions db))) db = Some (roots, heap) ∧
    length heap = length (permissions db) ∧
    (∀ b nb a, heap !! b = Some nb → a ∈ Children nb →
       ∃ p q, p ∈ permissions db ∧ q ∈ permissions db ∧
              node_at heap p a ∧ built_from nb q ∧
              Permission_ParentCode p ≠ "" ∧
              Permission_ParentCode p = Permission_Code q) ∧
    (∀ b nb, heap !! b = Some nb → NoDup (Children nb)) ∧
    NoDup roots ∧
    (∀ b nb, heap !! b = Some nb → HasChildren nb = true ↔ Children nb ≠ []).
Proof.
  intros Hsort Hnd.
  destruct (GetPermissionTrees_linked sort_slice db Hsort Hnd)
    as (roots & h & tm & Hrun & Hcode & Honly & Hl & Hroots & _).
  pose proof (GetAllPermissions_perm db) as Hperm.
  set (perms := GetAllPermissions db) in *.
  assert (∀ c, c ∉ Permission_Code <$> perms → tm !! c = None) as Honly'.
  { intros c Hc. apply Honly. by rewrite <- Hperm. }
  assert (∀ b nb, h !! b = Some nb →
            ∃ q, perms !! b = Some q ∧ built_from nb q ∧
                 Children nb ≡ₚ omap (childOf tm b) perms ∧
                 HasChildren nb = bool_decide (omap (childOf tm b) perms ≠ [])) as Hnode.
  { intros b nb Hb.
    destruct (linked_lookup perms tm h b Hl) as (q & x & Hq & Hx).
    { rewrite <- (proj1 Hl). by eapply lookup_lt_Some. }
    destruct Hl as [_ Hall]. destruct (Hall b q Hq) as (y & Hy & Hf & Hc & Hh & _).
    assert (y = nb) as -> by congruence. by exists q. }
  exists roots, h. split_and!; [done| | | | |].
  - rewrite (proj1 Hl). by apply Permutation_length.
  - intros b nb a Hb Ha. destruct (Hnode b nb Hb) as (q & Hq & Hf & Hc & _).
    rewrite Hc in Ha. apply list_elem_of_omap in Ha as (p & Hp & Hchild).
    apply (childOf_Some perms tm Hcode) in Hchild as (Ha & Hne & Hpar); [|done].
    destruct (tm_lookup_code perms tm Hcode Honly' _ _ Hpar) as (q' & Hq' & Hcq).
    assert (q' = q) as -> by congruence.
    exists p, q. split_and!; [by rewrite <- Hperm| |by eapply linked_built_from|done..].
    rewrite <- Hperm. by eapply list_elem_of_lookup_2.
  - intros b nb Hb. destruct (Hnode b nb Hb) as (q & _ & _ & Hc & _).
    rewrite Hc. apply (sublist_NoDup _ (seq 0 (length perms))); [apply NoDup_seq|].
    apply omap_index_sublist. intros i x c Hi Hx.
    apply (childOf_Some perms tm Hcode) in Hx as (Hc' & _); [|by eapply list_elem_of_lookup_2].
    simpl. eapply tm_code_inj; [exact Hcode|exact Hc'|exact Hi|done].
  - rewrite Hroots. apply (sublist_NoDup _ (seq 0 (length perms))); [apply NoDup_seq|].
    apply omap_index_sublist. intros i x c Hi Hx.
    apply (rootOf_Some perms tm Hcode) in Hx as (Hc' & _); [|by eapply list_elem_of_lookup_2].
    simpl. eapply tm_code_inj; [exact Hcode|exact Hc'|exact Hi|done].
  - intros b nb Hb. destruct (Hnode b nb Hb) as (q & _ & _ & Hc & Hh).
    rewrite Hh, bool_decide_eq_true. split.
    + intros Hne Hnil. rewrite Hnil in Hc. symmetry in Hc.
      by apply Permutation_nil_r in Hc.
    + intros Hne Hnil. rewrite Hnil in Hc. by apply Permutation_nil_r in Hc.
Qed.

(** X18 on the seeded table. *)
Lemma GetPermissionTrees_children_exact_witness :
  ∃ roots heap,
    GetPermissionTrees insertion_sort (S (length (permissions db_seed))) db_seed
      = Some (roots, heap) ∧
    length heap = length (permissions db_seed) ∧
    (∀ b nb a, heap !! b = Some nb → a ∈ Children nb →
       ∃ p q, p ∈ permissions db_seed ∧ q ∈ permissions db_seed ∧
              node_at heap p a ∧ built_from nb q ∧
              Permission_ParentCode p ≠ "" ∧
              Permission_ParentCode p = Permission_Code q) ∧
    (∀ b nb, heap !! b = Some nb → NoDup (Children nb)) ∧
    NoDup roots ∧
    (∀ b nb, heap !! b = Some nb → HasChildren nb = true ↔ Children nb ≠ []).
Proof.
  apply (GetPermissionTrees_children_exact insertion_sort db_seed insertion_sort_sorts).
  decide_by_computation.
Defined.

(** ** A created user logs in *)

Lemma CreateUser_success `{Bcrypt} salt now user db db' user' :
  CreateUser salt now user db = (db', user', None) →
  ∃ hash,
    bcrypt_GenerateFromPassword (User_Password user) salt = Some hash ∧
    User_Password user' = hash ∧
    User_Username user' = User_Username user ∧
    (User_Username user ∉ User_Username <$> users db) ∧
    users db' = users db ++ [User_row user'].
Proof.
  unfold CreateUser. destruct (decide _) as [|Hcount]; [done|].
  destruct (bcrypt_GenerateFromPassword _ _) as [hash|]; [|done].
  destruct (gorm_Create_User _ _ _) as [err|[db1 u1]] eqn:Hc; [done|].
  intros [= <- <-]. unfold gorm_Create_User in Hc.
  destruct (bool_decide (_ ∈ User_Username <$> _)) eqn:Hname; [done|].
  destruct (bool_decide (_ ∈ User_ID <$> _)); [done|].
  injection Hc as <- <-. exists hash. split_and!; [done..| |done].
  by apply bool_decide_eq_false in Hname.
Qed.

(** X19: after [CreateUser] has stored a user, [Login] with the user
    name and a password answers with the token issued for the id the
    creation assigned when bcrypt accepts the password for the hash the
    creation stored, and with the refusal it has for unknown users when
    bcrypt does not; it accepts the password given at the creation, and
    so every password with the same first 72 bytes, which is all bcrypt
    reads. *)
Theorem CreateUser_then_Login `{B : Bcrypt} `{!BcryptSpec B}
    GenerateToken salt now user db db' user' password :
  CreateUser salt now user db = (db', user', None) →
  User_Username user ≠ "" → password ≠ "" →
  Login GenerateToken (Some (Build_LoginRequest (User_Username user) password)) db' =
    (if bcrypt_CompareHashAndPassword (User_Password (User_row user')) password
     then match GenerateToken (User_ID user') (User_Username user) with
          | Some token => (StatusOK, Success (Some (login_data token user')))
          | None => (StatusOK, Error "生成 token 失败")
          end
     else login_failed) ∧
  (bcrypt_input password = bcrypt_input (User_Password user) →
   Login GenerateToken (Some (Build_LoginRequest (User_Username user) password)) db' =
     match GenerateToken (User_ID user') (User_Username user) with
     | Some token => (StatusOK, Success (Some (login_data token user')))
     | None => (StatusOK, Error "生成 token 失败")
     end).
Proof.
  intros Hcreate Hname Hpw.
  apply CreateUser_success in Hcreate as (hash & Hgen & Hhash & Hun & Hfresh & Husers).
  assert (GetUserByUsername (User_Username user) db' = inr (User_row user')) as Hget.
  { unfold GetUserByUsername. rewrite Husers, <- Hun.
    rewrite (list_find_app_fresh User_Username (users db) (User_row user')); [done|].
    simpl. by rewrite Hun. }
  assert (Login GenerateToken
            (Some (Build_LoginRequest (User_Username user) password)) db' =
          if bcrypt_CompareHashAndPassword (User_Password (User_row user')) password
          then match GenerateToken (User_ID user') (User_Username user) with
               | Some token => (StatusOK, Success (Some (login_data token user')))
               | None => (StatusOK, Error "生成 token 失败")
               end
          else login_failed) as Hlogin.
  { unfold Login, bind_LoginRequest.
    rewrite decide_True by done.
    cbn [LoginRequest_Username LoginRequest_Password]. rewrite Hget.
    unfold VerifyPassword, login_data.
    cbn [User_row User_Password User_ID User_Username User_Email User_Realname].
    rewrite Hun. by destruct (bcrypt_CompareHashAndPassword _ _). }
  split; [done|]. intros Hinput. rewrite Hlogin.
  cbn [User_row User_Password]. rewrite Hhash.
  by rewrite (bcrypt_accepts _ _ _ password Hgen Hinput).
Qed.

(** X19 for a user created with a password of 72 bytes, who logs in with
    that password and one more byte. *)
Lemma CreateUser_then_Login_witness :
  Login (H := bcrypt_model) (λ _ _, Some "token")
    (Some (Build_LoginRequest (User_Username (user 0 "alice" password_72))
             (password_72 +:+ "b")))
    (CreateUser (H := bcrypt_model) "salt" 7 (user 0 "alice" password_72) db_admin).1.1 =
    (if bcrypt_CompareHashAndPassword (Bcrypt := bcrypt_model)
          (User_Password
             (User_row (CreateUser (H := bcrypt_model) "salt" 7
                          (user 0 "alice" password_72) db_admin).1.2))
          (password_72 +:+ "b")
     then match (λ _ _, Some "token")
                  (User_ID (CreateUser (H := bcrypt_model) "salt" 7
                              (user 0 "alice" password_72) db_admin).1.2)
                  (User_Username (user 0 "alice" password_72)) with
          | Some token =>
              (StatusOK,
               Success (Some (login_data token
                 (CreateUser (H := bcrypt_model) "salt" 7
                    (user 0 "alice" password_72) db_admin).1.2)))
          | None => (StatusOK, Error "生成 token 失败")
          end
     else login_failed) ∧
  (bcrypt_input (password_72 +:+ "b")
     = bcrypt_input (User_Password (user 0 "alice" password_72)) →
   Login (H := bcrypt_model) (λ _ _, Some "token")
     (Some (Build_LoginRequest (User_Username (user 0 "alice" password_72))
              (password_72 +:+ "b")))
     (CreateUser (H := bcrypt_model) "salt" 7 (user 0 "alice" password_72) db_admin).1.1 =
     match (λ _ _, Some "token")
             (User_ID (CreateUser (H := bcrypt_model) "salt" 7
                         (user 0 "alice" password_72) db_admin).1.2)
             (User_Username (user 0 "alice" password_72)) with
     | Some token =>
         (StatusOK,
          Success (Some (login_data token
            (CreateUser (H := bcrypt_model) "salt" 7
               (user 0 "alice" password_72) db_admin).1.2)))
     | None => (StatusOK, Error "生成 token 失败")
     end).
Proof.
  apply (@CreateUser_then_Login bcrypt_model bcrypt_model_spec (λ _ _, Some "token")
           "salt" 7 (user 0 "alice" password_72) db_admin).
  - reflexivity.
  - discriminate.
  - discriminate.
Defined.

(** ** Updates of an id that is not stored *)

Lemma mapM_no_match {A} (P : A → Prop) `{∀ x, Decision (P x)} (f : A → option A)
    (l : list A) :
  (∀ x, x ∈ l → ¬ P x) →
  mapM (λ x, if decide (P x) then f x else Some x) l = Some l.
Proof.
  induction l as [|x l IH]; intros Hno; [done|]. simpl.
  rewrite decide_False by (apply Hno; left).
  simpl. rewrite IH by (intros y Hy; apply Hno; by right). done.
Qed.

Lemma put_string_dom key s (updates : gmap string value) (columns : gset string) :
  key ∈ columns → dom updates ⊆ columns →
  dom (put_string key s updates) ⊆ columns.
Proof.
  intros Hkey Hdom. unfold put_string. destruct (decide _); [|done].
  rewrite dom_insert. apply union_least; [|done]. by apply singleton_subseteq_l.
Qed.

Lemma user_updates_dom req : dom (user_updates req) ⊆ user_columns.
Proof.
  assert (dom (put_string "email" (UpdateUserRequest_Email req)
                 (put_string "realname" (UpdateUserRequest_Realname req)
                    (put_string "username" (UpdateUserRequest_Username req) ∅)))
          ⊆ user_columns) as Hstrings.
  { repeat (apply put_string_dom; [decide_by_computation|]).
    rewrite dom_empty. apply empty_subseteq. }
  unfold user_updates. destruct (UpdateUserRequest_Status req); [|done].
  rewrite dom_insert. apply union_least; [|done].
  apply singleton_subseteq_l. decide_by_computation.
Qed.

Lemma role_updates_dom req : dom (role_updates req) ⊆ role_columns.
Proof.
  unfold role_updates.
  repeat (apply put_string_dom; [decide_by_computation|]).
  rewrite dom_empty. apply empty_subseteq.
Qed.

(** X20: [UserController.Update] and [RoleController.Update] answer an id
    that no row has with success, and leave the database as it was. *)
Theorem Update_handlers_unknown_id `{Bcrypt} salt now id db :
  id ∉ User_ID <$> users db → id ∉ Role_ID <$> roles db →
  NoDup (User_Username <$> users db) → NoDup (Role_Code <$> roles db) →
  (∀ req, UserController_Update salt now id (Some req) db
            = (db, (StatusOK, Success None))) ∧
  (∀ req, RoleController_Update now id (Some req) db
            = (db, (StatusOK, Success None))).
Proof.
  intros Hu Hr Hnu Hnr. split; intros req.
  - unfold UserController_Update, UpdateUser.
    destruct (user_updates_lookup req) as (_ & _ & _ & ->).
    unfold gorm_Updates_User.
    rewrite bool_decide_eq_true_2 by apply user_updates_dom.
    rewrite mapM_no_match.
    2:{ intros u Hin Hid. apply Hu. rewrite <- Hid. by apply list_elem_of_fmap_2. }
    rewrite bool_decide_eq_true_2 by done. by destruct db.
  - unfold RoleController_Update, UpdateRole, gorm_Updates_Role.
    rewrite bool_decide_eq_true_2 by apply role_updates_dom.
    rewrite mapM_no_match.
    2:{ intros r Hin Hid. apply Hr. rewrite <- Hid. by apply list_elem_of_fmap_2. }
    rewrite bool_decide_eq_true_2 by done. by destruct db.
Qed.

(** X20 for the id 9 in the sample database. *)
Lemma Update_handlers_unknown_id_witness :
  (∀ req, UserController_Update (H := bcrypt_model) "salt" 7 9 (Some req) db_rbac
            = (db_rbac, (StatusOK, Success None))) ∧
  (∀ req, RoleController_Update 7 9 (Some req) db_rbac
            = (db_rbac, (StatusOK, Success None))).
Proof.
  apply (@Update_handlers_unknown_id bcrypt_model "salt" 7 9 db_rbac);
    decide_by_computation.
Defined.

(** ** Deleting a permission and the permission checks *)

Lemma CheckPermission_elem userID permissionCode db :
  CheckPermission userID permissionCode db = true →
  ∃ u rid p,
    GetUserByID userID db = inr u ∧ User_RoleID u = Some rid ∧
    p ∈ permissions db ∧ (rid, Permission_ID p) ∈ role_permissions db ∧
    Permission_Code p = permissionCode.
Proof.
  rewrite CheckPermission_tables.
  destruct (GetUserByID userID db) as [|u]; [done|].
  destruct (User_RoleID u) as [rid|] eqn:Hrid; [|done].
  rewrite GetRolePermissions_tables. destruct (bool_decide _); [|done].
  rewrite has_code_elem, <- list_fmap_compose.
  intros Hin. apply list_elem_of_fmap in Hin as (p & Hc & Hin).
  apply list_elem_of_filter in Hin as [Hjoin Hin].
  exists u, rid, p. by split_and!.
Qed.

Lemma CheckPermission_intro userID permissionCode db u rid p :
  GetUserByID userID db = inr u → User_RoleID u = Some rid →
  rid ∈ Role_ID <$> roles db →
  p ∈ permissions db → (rid, Permission_ID p) ∈ role_permissions db →
  Permission_Code p = permissionCode →
  CheckPermission userID permissionCode db = true.
Proof.
  intros Hu Hrid Hrole Hp Hjoin Hc.
  rewrite CheckPermission_tables, Hu, Hrid, GetRolePermissions_tables.
  rewrite bool_decide_eq_true_2 by done.
  rewrite has_code_elem, <- list_fmap_compose. apply list_elem_of_fmap.
  exists p. split; [done|]. by apply list_elem_of_filter.
Qed.

Lemma CheckPermission_role userID permissionCode db :
  CheckPermission userID permissionCode db = true →
  ∃ u rid, GetUserByID userID db = inr u ∧ User_RoleID u = Some rid ∧
           rid ∈ Role_ID <$> roles db.
Proof.
  rewrite CheckPermission_tables.
  destruct (GetUserByID userID db) as [|u]; [done|].
  destruct (User_RoleID u) as [rid|] eqn:Hrid; [|done].
  rewrite GetRolePermissions_tables.
  destruct (bool_decide _) eqn:Hrole; [|done].
  apply bool_decide_eq_true in Hrole. intros _. by exists u, rid.
Qed.

(** X21: after [DeletePermission] has deleted a permission of a table
    with unique codes and ids, no user passes [CheckPermission] for its
    code, and the check of every other code answers as before. *)
Theorem DeletePermission_revokes fails db db' q userID :
  permissions_unique db →
  q ∈ permissions db →
  DeletePermission fails (Permission_ID q) db = (db', None) →
  CheckPermission userID (Permission_Code q) db' = false ∧
  (∀ code, code ≠ Permission_Code q →
     CheckPermission userID code db' = CheckPermission userID code db).
Proof.
  intros [Hc Hi] Hq Hdel. apply DeletePermission_success in Hdel. subst db'.
  set (db' := Build_DB _ _ _ _). split.
  - destruct (CheckPermission userID (Permission_Code q) db') eqn:Hcheck; [|done].
    apply CheckPermission_elem in Hcheck as (u & rid & p & _ & _ & Hp & _ & Hpc).
    simpl in Hp. apply list_elem_of_filter in Hp as [Hne Hp]. destruct Hne.
    f_equal. by apply (NoDup_fmap_elem_inj Permission_Code (permissions db)).
  - intros code Hne.
    destruct (CheckPermission userID code db') eqn:Hnew,
      (CheckPermission userID code db) eqn:Hold; [done| |  |done].
    + pose proof (CheckPermission_role _ _ _ Hnew) as (u' & rid' & Hu' & Hrid' & Hrole).
      apply CheckPermission_elem in Hnew as (u & rid & p & Hu & Hrid & Hp & Hjoin & Hpc).
      assert (u' = u) as -> by congruence. assert (rid' = rid) as -> by congruence.
      simpl in Hp, Hjoin.
      apply list_elem_of_filter in Hp as [_ Hp].
      apply list_elem_of_filter in Hjoin as [_ Hjoin].
      rewrite <- Hold. symmetry.
      by apply (CheckPermission_intro userID code db u rid p).
    + pose proof (CheckPermission_role _ _ _ Hold) as (u' & rid' & Hu' & Hrid' & Hrole).
      apply CheckPermission_elem in Hold as (u & rid & p & Hu & Hrid & Hp & Hjoin & Hpc).
      assert (u' = u) as -> by congruence. assert (rid' = rid) as -> by congruence.
      assert (Permission_ID p ≠ Permission_ID q) as Hid.
      { intros Hid. apply Hne. rewrite <- Hpc. f_equal.
        by apply (NoDup_fmap_elem_inj Permission_ID (permissions db)). }
      rewrite <- Hnew.
      apply (CheckPermission_intro userID code db' u rid p); [done|done|done| | |done].
      * simpl. by apply list_elem_of_filter.
      * simpl. by apply list_elem_of_filter.
Qed.

(** X21 for the deletion of "dashboard", which both roles of the sample
    database hold. *)
Lemma DeletePermission_revokes_witness :
  CheckPermission 2 (Permission_Code (perm 15 "dashboard" "" 1 0))
    (DeletePermission (λ _, false) (Permission_ID (perm 15 "dashboard" "" 1 0)) db_rbac).1
    = false ∧
  (∀ code, code ≠ Permission_Code (perm 15 "dashboard" "" 1 0) →
     CheckPermission 2 code
       (DeletePermission (λ _, false) (Permission_ID (perm 15 "dashboard" "" 1 0))
          db_rbac).1
     = CheckPermission 2 code db_rbac).
Proof.
  apply (DeletePermission_revokes (λ _, false) db_rbac
           (DeletePermission (λ _, false) (Permission_ID (perm 15 "dashboard" "" 1 0))
              db_rbac).1
           (perm 15 "dashboard" "" 1 0) 2).
  - split; decide_by_computation.
  - simpl. rewrite !elem_of_cons. by do 4 right; left.
  - reflexivity.
Defined.
